(** * QueryProcessor: boolean, proximity and TF-IDF query evaluation

    A shallow embedding of [QueryProcessor.py] (Python 2) and the proofs of
    its query-evaluation properties.

    - Python [str] values are Rocq [string]s, [int]s are [Z], [set]s of
      document IDs are [gset Z], the per-term postings dictionary is a
      [gmap Z (list Z)], and scores (NumPy floats) are idealised as reals.
    - Python exceptions are explicit: every handler returns a [Res]. *)

From Stdlib Require Import ZArith Lia Ascii String Reals Lra.
From stdpp Require Import gmap strings list fin_maps sorting.

#[local] Set Warnings "-clear-no-such-hyp".

Local Open Scope Z_scope.

(** ** Exceptions *)

Inductive PyError := IndexError | KeyError | ValueError.

(** [OutOfFuel] is not a Python outcome: it marks a [while] loop that was
    cut off by the fuel of the model before its condition became false. *)
Inductive Res (A : Type) : Type :=
  | Ok (a : A)
  | Raise (e : PyError)
  | OutOfFuel.
Arguments Ok {A} a.
Arguments Raise {A} e.
Arguments OutOfFuel {A}.

Definition bind {A B} (r : Res A) (k : A → Res B) : Res B :=
  match r with
  | Ok a => k a
  | Raise e => Raise e
  | OutOfFuel => OutOfFuel
  end.

Notation "x <~ r ; k" := (bind r (fun x => k))
  (at level 100, r at next level, right associativity).

(** [for x in l: acc = f acc x], stopping at the first exception. *)
Fixpoint foldM {A B} (f : B → A → Res B) (acc : B) (l : list A) : Res B :=
  match l with
  | [] => Ok acc
  | x :: l' => acc' <~ f acc x; foldM f acc' l'
  end.

(** [[f(x) for x in l]], stopping at the first exception. *)
Fixpoint mapM {A B} (f : A → Res B) (l : list A) : Res (list B) :=
  match l with
  | [] => Ok []
  | x :: l' => y <~ f x; ys <~ mapM f l'; Ok (y :: ys)
  end.

(** [l[n]] for a non-negative index. *)
Definition getitem {A} (l : list A) (n : nat) : Res A :=
  match l !! n with
  | Some x => Ok x
  | None => Raise IndexError
  end.

(** [d[k]] on a dictionary. *)
Definition dict_getitem {A} (d : gmap Z A) (k : Z) : Res A :=
  match d !! k with
  | Some x => Ok x
  | None => Raise KeyError
  end.

(** ** Python string primitives *)

Module Py.

(** [s.startswith(p)] *)
Fixpoint startswith (p s : string) : bool :=
  match p, s with
  | EmptyString, _ => true
  | String _ _, EmptyString => false
  | String a p', String b s' => Ascii.eqb a b && startswith p' s'
  end.

(** [sub in s] *)
Fixpoint contains (sub s : string) : bool :=
  startswith sub s ||
  match s with
  | EmptyString => false
  | String _ s' => contains sub s'
  end.

(** Scanner behind [s.split(sep)] for a non-empty [sep]: [skip] counts the
    characters of a separator that was just recognised and remain to be
    consumed. The head of the result is the piece being built. *)
Fixpoint split_go (sep : string) (skip : nat) (s : string) : list string :=
  match s with
  | EmptyString => [EmptyString]
  | String c s' =>
      match skip with
      | S k => split_go sep k s'
      | O =>
          if startswith sep s
          then EmptyString :: split_go sep (Nat.pred (String.length sep)) s'
          else match split_go sep O s' with
               | p :: ps => String c p :: ps
               | [] => [String c EmptyString]
               end
      end
  end.

(** [s.split(sep)]; every separator in the source is a non-empty literal. *)
Definition split (sep s : string) : list string := split_go sep O s.

(** Drop the first [n] characters. *)
Fixpoint drop (n : nat) (s : string) : string :=
  match n, s with
  | O, _ => s
  | S _, EmptyString => EmptyString
  | S n', String _ s' => drop n' s'
  end.

(** First occurrence of [sep]: the text before it and the text after. *)
Fixpoint partition (sep s : string) : option (string * string) :=
  if startswith sep s then Some (EmptyString, drop (String.length sep) s)
  else match s with
       | EmptyString => None
       | String c s' =>
           match partition sep s' with
           | Some (b, a) => Some (String c b, a)
           | None => None
           end
       end.

(** [s.split(sep, 1)] *)
Definition split1 (sep s : string) : list string :=
  match partition sep s with
  | Some (b, a) => [b; a]
  | None => [s]
  end.

(** Whitespace removed by [str.strip()]: space, \t, \n, \v, \f, \r. *)
Definition is_space (c : ascii) : bool := Ascii.is_space c.

Fixpoint lstrip (s : string) : string :=
  match s with
  | EmptyString => EmptyString
  | String c s' => if is_space c then lstrip s' else s
  end.

Fixpoint rstrip (s : string) : string :=
  match s with
  | EmptyString => EmptyString
  | String c s' =>
      match rstrip s' with
      | EmptyString => if is_space c then EmptyString else String c EmptyString
      | r => String c r
      end
  end.

(** [s.strip()] *)
Definition strip (s : string) : string := rstrip (lstrip s).

(** [re.sub('[...]+', '', s)]: delete every character of a class. *)
Fixpoint remove (cls : ascii → bool) (s : string) : string :=
  match s with
  | EmptyString => EmptyString
  | String c s' => if cls c then remove cls s' else String c (remove cls s')
  end.

(** [re.sub(r'x', 'y', s)] for single characters [x] and [y]. *)
Fixpoint replace (x y : ascii) (s : string) : string :=
  match s with
  | EmptyString => EmptyString
  | String c s' => String (if Ascii.eqb c x then y else c) (replace x y s')
  end.

Definition is_digit (c : ascii) : bool :=
  match Ascii.is_nat c with Some _ => true | None => false end.

Definition digit_value (c : ascii) : Z :=
  match Ascii.is_nat c with Some d => Z.of_nat d | None => 0 end.

Fixpoint int_go (acc : Z) (s : string) : Z :=
  match s with
  | EmptyString => acc
  | String c s' => int_go (10 * acc + digit_value c) s'
  end.

(** [int(s)] on a string of decimal digits; the empty string is a
    [ValueError]. *)
Definition int (s : string) : Res Z :=
  match s with
  | EmptyString => Raise ValueError
  | _ => Ok (int_go 0 s)
  end.

End Py.

(** ** The positional inverted index *)

(** Modelled from the spec: the class [InvertedIndex] (module
    [InvertedIndex.py]) is not part of the sources. The spec describes it
    as a mapping term → (document → ascending position list) with two
    read accessors that return empty results for unknown terms. *)
Abbreviation InvertedIndex := (gmap string (gmap Z (list Z))).

(** Modelled from the spec: [postings(term)], the document → positions
    mapping of a term, empty for an unknown term. *)
Definition getTermDocumentDictionary (ii : InvertedIndex) (term : string)
  : gmap Z (list Z) :=
  default ∅ (ii !! term).

(** Modelled from the spec: [documentSet(term)], the set of document IDs
    containing the term, empty for an unknown term. *)
Definition getTermDocumentSet (ii : InvertedIndex) (term : string) : gset Z :=
  dom (getTermDocumentDictionary ii term).

(** Data-model invariants of a postings dictionary: a document is listed
    for a term only where the term occurs, and positions are ascending
    without duplicates. *)
Definition nonempty_postings (d : gmap Z (list Z)) : Prop :=
  map_Forall (λ _ l, l ≠ []) d.

Definition ascending (l : list Z) : Prop := StronglySorted Z.lt l.

#[global] Instance nonempty_postings_dec d : Decision (nonempty_postings d).
Proof. unfold nonempty_postings. apply _. Defined.

(** ** The linear merge of [proximityHandler] *)

(** Local variables of one run of the [while] loop. The indices start at 0
    and only grow, so they are naturals. *)
Record MergeState := {
  idx_i : nat;
  idx_j : nat;
  thereIsNoMatch : bool;
  notOutOfBounds : bool;
  matchingDocuments : list Z
}.

Section Merge.
Variable isPhrase : bool.
Variable distance : Z.
Variable document : Z.
Variables currentDocumentList1 currentDocumentList2 : list Z.

(** One iteration of the loop body (lines 143-156). *)
Definition mergeBody (st : MergeState) : Res MergeState :=
  a <~ getitem currentDocumentList1 (idx_i st);
  b <~ getitem currentDocumentList2 (idx_j st);
  let condition := if isPhrase then (a - b <=? 0) else true in
  if (Z.abs (a - b) <=? distance) && condition then
    Ok {| idx_i := idx_i st; idx_j := idx_j st;
          thereIsNoMatch := false;
          notOutOfBounds := notOutOfBounds st;
          matchingDocuments := matchingDocuments st ++ [document] |}
  else if (a <? b) &&
          (Z.of_nat (idx_i st) <? Z.of_nat (length currentDocumentList1) - 1) then
    Ok {| idx_i := S (idx_i st); idx_j := idx_j st;
          thereIsNoMatch := thereIsNoMatch st;
          notOutOfBounds := notOutOfBounds st;
          matchingDocuments := matchingDocuments st |}
  else if (a >=? b) &&
          (Z.of_nat (idx_j st) <? Z.of_nat (length currentDocumentList2) - 1) then
    Ok {| idx_i := idx_i st; idx_j := S (idx_j st);
          thereIsNoMatch := thereIsNoMatch st;
          notOutOfBounds := notOutOfBounds st;
          matchingDocuments := matchingDocuments st |}
  else
    Ok {| idx_i := idx_i st; idx_j := idx_j st;
          thereIsNoMatch := thereIsNoMatch st;
          notOutOfBounds := false;
          matchingDocuments := matchingDocuments st |}.

(** [while(thereIsNoMatch and notOutOfBounds)], at most [fuel] iterations. *)
Fixpoint mergeWhile (fuel : nat) (st : MergeState) : Res MergeState :=
  if thereIsNoMatch st && notOutOfBounds st then
    match fuel with
    | O => OutOfFuel
    | S fuel' => st' <~ mergeBody st; mergeWhile fuel' st'
    end
  else Ok st.

Definition mergeInit (matching : list Z) : MergeState :=
  {| idx_i := 0; idx_j := 0; thereIsNoMatch := true; notOutOfBounds := true;
     matchingDocuments := matching |}.
End Merge.

(** Body of [for document in intersection] (lines 136-156): the loop is
    given one iteration more than the two lists have positions, which
    [mergeWhile_total] shows to be enough; on an empty position list the
    first iteration raises [IndexError], as the source does. *)
Definition scanDocument (isPhrase : bool) (distance : Z)
    (dict1 dict2 : gmap Z (list Z)) (matching : list Z) (document : Z)
  : Res (list Z) :=
  currentDocumentList1 <~ dict_getitem dict1 document;
  currentDocumentList2 <~ dict_getitem dict2 document;
  st <~ mergeWhile isPhrase distance document
          currentDocumentList1 currentDocumentList2
          (S (length currentDocumentList1 + length currentDocumentList2))
          (mergeInit matching);
  Ok (matchingDocuments st).

(** The double-quote character, and a text between double quotes. *)
Definition dquote : ascii := "034"%char.
Definition quoted (s : string) : string :=
  String dquote (s +:+ String dquote EmptyString).

(** [len(l)] *)
Definition len {A} (l : list A) : Z := Z.of_nat (length l).

(** [np.log10] on the reals. It stands for the NumPy function on positive
    arguments only: at 0 NumPy returns -inf where this definition returns
    0, so a property of scores is stated for non-empty position lists and
    a collection at least as large as the document frequency. *)
Definition np_log10 (x : R) : R := (ln x / ln 10)%R.

(** ** The query processor *)

Section QueryProcessor.
(** The [Preprocessor] toolkit is an external collaborator. *)
Variable toLowerCase : string → string.
Variable stemWordPorter : string → string.
Variable tokenize : string → list string.
Variable isNotAStopword : string → bool.

(** Fields of the processor once the index is loaded. *)
Variable ii : InvertedIndex.
Variable docIDSet : gset Z.

Definition collectionSize : Z := Z.of_nat (size docIDSet).

Definition preprocessedTerm (word : string) : string :=
  stemWordPorter (toLowerCase (Py.strip word)).

Definition proximityHandler (proximityQuery : string) (distance : Z)
    (isPhrase : bool) : Res (gset Z) :=
  let termPair := Py.split "," proximityQuery in
  term1 <~ getitem termPair 0;
  term2 <~ getitem termPair 1;
  let dict1 := getTermDocumentDictionary ii (preprocessedTerm (Py.strip term1)) in
  let dict2 := getTermDocumentDictionary ii (preprocessedTerm (Py.strip term2)) in
  let intersection := merge_sort Z.le (elements (dom dict1 ∩ dom dict2)) in
  matching <~ foldM (scanDocument isPhrase distance dict1 dict2) [] intersection;
  Ok (list_to_set matching).

Definition is_quote (c : ascii) : bool := Ascii.eqb c dquote.

Definition phraseHandler (phraseQuery : string) : Res (gset Z) :=
  let termsWithoutQuotes := Py.remove is_quote phraseQuery in
  let termsCommaSeparated := Py.replace " "%char ","%char termsWithoutQuotes in
  proximityHandler termsCommaSeparated 1 true.

Definition simpleExpressionHandler (singleExpression : string) : Res (gset Z) :=
  if Py.contains "NOT" singleExpression then
    after <~ getitem (Py.split1 "NOT" singleExpression) 1;
    let standaloneTerm := Py.strip after in
    termDocumentSet <~
      (if Py.contains (String dquote EmptyString) standaloneTerm
       then phraseHandler standaloneTerm
       else Ok (getTermDocumentSet ii (preprocessedTerm standaloneTerm)));
    Ok (docIDSet ∖ termDocumentSet)
  else if Py.contains (String dquote EmptyString) singleExpression then
    phraseHandler singleExpression
  else
    Ok (getTermDocumentSet ii (preprocessedTerm singleExpression)).

Definition complexExpressionHandler (query : string) : Res (gset Z) :=
  if Py.contains " AND " query then
    expressionSets <~
      mapM (λ simpleExpression, simpleExpressionHandler (Py.strip simpleExpression))
           (Py.split " AND " query);
    s0 <~ getitem expressionSets 0;
    s1 <~ getitem expressionSets 1;
    Ok (s0 ∩ s1)
  else if Py.contains " OR " query then
    expressionSets <~
      mapM (λ simpleExpression, simpleExpressionHandler (Py.strip simpleExpression))
           (Py.split " OR " query);
    s0 <~ getitem expressionSets 0;
    s1 <~ getitem expressionSets 1;
    Ok (s0 ∪ s1)
  else if Py.contains "#" query then
    let tempList := Py.split "(" query in
    prefix <~ getitem tempList 0;
    distance <~ Py.int (Py.remove (λ c, negb (Py.is_digit c)) prefix);
    inner <~ getitem tempList 1;
    termPair <~ getitem (Py.split ")" inner) 0;
    proximityHandler termPair distance false
  else
    simpleExpressionHandler query.

(** *** TF-IDF ranking *)

(** The partial score of one posting. Both operands of the quotient are
    Python 2 [int]s, so [/] is the integer (floor) division. *)
Definition partialScore (positions : list Z) (termDictionarySize : Z) : R :=
  ((1 + np_log10 (IZR (len positions))) *
   np_log10 (IZR (collectionSize / termDictionarySize)))%R.

(** Body of [for doc, positions in termDictionary.items()]. *)
Definition scoreDocument (termDictionarySize : Z)
    (queryDocumentScores : gmap Z R) (item : Z * list Z) : gmap Z R :=
  let doc := item.1 in
  let positions := item.2 in
  match queryDocumentScores !! doc with
  | None =>
      <[doc := partialScore positions termDictionarySize]> queryDocumentScores
  | Some score =>
      <[doc := (score + partialScore positions termDictionarySize)%R]>
        queryDocumentScores
  end.

(** Body of [for term in tokenize(toLowerCase(query))]. *)
Definition scoreTerm (queryDocumentScores : gmap Z R) (term : string)
  : gmap Z R :=
  let termStemmed := stemWordPorter term in
  if (0 <? len (list_ascii_of_string term)) && isNotAStopword term then
    let termDictionary := getTermDocumentDictionary ii termStemmed in
    let termDictionarySize := Z.of_nat (size termDictionary) in
    if termDictionarySize =? 0 then queryDocumentScores
    else foldl (scoreDocument termDictionarySize) queryDocumentScores
               (map_to_list termDictionary)
  else queryDocumentScores.

Definition calculateTFIDF (query : string) : gmap Z R :=
  foldl scoreTerm ∅ (tokenize (toLowerCase query)).
End QueryProcessor.

(** ** Result files *)

(** One line of a results file: the sentinel of a query without results, a
    boolean hit, or a ranked hit. The constant columns are left out. *)
Inductive ResultLine :=
  | NullLine (queryID : Z)
  | BooleanLine (queryID doc : Z)
  | TFIDFLine (queryID doc : Z) (score : R).

(** [for counter, entry in enumerate(entries)] with the [break] of the
    writers (lines 263-266 and 285-288). *)
Fixpoint writeEntries {A} (line : A → ResultLine) (counter : Z)
    (entries : list A) : list ResultLine :=
  match entries with
  | [] => []
  | entry :: rest =>
      if counter =? 999 then []
      else line entry :: writeEntries line (counter + 1) rest
  end.

(** Lines written for the boolean results, in the order of [results]. *)
Definition writeBooleanResultsToFile (results : list (Z * gset Z))
  : list ResultLine :=
  flat_map (λ kv : Z * gset Z,
    let k := kv.1 in
    let v := kv.2 in
    (if len (elements v) =? 0 then [NullLine k] else []) ++
    writeEntries (BooleanLine k) 0 (merge_sort Z.le (elements v))) results.

(** Insertion into a list that is descending by score, before the first
    entry whose score is not larger. *)
Fixpoint insertByScore (entry : Z * R) (l : list (Z * R)) : list (Z * R) :=
  match l with
  | [] => [entry]
  | y :: l' =>
      if Rlt_dec entry.2 y.2 then y :: insertByScore entry l'
      else entry :: l
  end.

(** [sorted(items, key=lambda (k,v): v, reverse = True)]: stable, descending. *)
Definition sortedByScore (items : list (Z * R)) : list (Z * R) :=
  foldr insertByScore [] items.

(** Lines written for the ranked results, in the order of [results].
    Entries of equal score come out in the order [map_to_list] lists the
    dictionary, which need not be the iteration order of the Python 2
    dictionary; the order of distinct scores does not depend on it. *)
Definition writeTFIDFResultsToFile (results : list (Z * gmap Z R))
  : list ResultLine :=
  flat_map (λ kv : Z * gmap Z R,
    let k := kv.1 in
    let v := kv.2 in
    (if Z.of_nat (size v) =? 0 then [NullLine k] else []) ++
    writeEntries (λ entry : Z * R, TFIDFLine k entry.1 entry.2) 0
      (sortedByScore (map_to_list v))) results.

(** ** A small collection *)

Module Sample.
(** ASCII lower-casing, an identity stemmer and a blank-separated
    tokenizer stand in for the preprocessing toolkit. *)
Definition lowerChar (c : ascii) : ascii :=
  let n := nat_of_ascii c in
  if (65 <=? n)%nat && (n <=? 90)%nat then ascii_of_nat (n + 32) else c.

Fixpoint toLowerCase (s : string) : string :=
  match s with
  | EmptyString => EmptyString
  | String c s' => String (lowerChar c) (toLowerCase s')
  end.

Definition stemWordPorter (s : string) : string := s.
Definition tokenize (s : string) : list string := Py.split " " s.
Definition isNotAStopword (s : string) : bool :=
  negb (String.eqb s "the").

(** "cat" occurs in document 1 at position 3 and in document 2 at
    position 10, "dog" in document 1 at position 4 and in document 3 at
    positions 2 and 9. *)
Definition index : InvertedIndex :=
  {[ "cat" := {[ 1 := [3]; 2 := [10] ]};
     "dog" := {[ 1 := [4]; 3 := [2; 9] ]} ]}.

Definition docIDSet : gset Z := {[ 1; 2; 3 ]}.

Definition simple :=
  simpleExpressionHandler toLowerCase stemWordPorter index docIDSet.
Definition evaluate :=
  complexExpressionHandler toLowerCase stemWordPorter index docIDSet.
Definition proximity :=
  proximityHandler toLowerCase stemWordPorter index.
Definition phrase :=
  phraseHandler toLowerCase stemWordPorter index.
Definition rank :=
  calculateTFIDF toLowerCase stemWordPorter tokenize isNotAStopword
    index docIDSet.
End Sample.

(** ** Specification vocabulary *)

(** The indices of a loop state point into the two position lists. *)
Definition inBounds (l1 l2 : list Z) (st : MergeState) : Prop :=
  (idx_i st < length l1)%nat ∧ (idx_j st < length l2)%nat.

(** The four ways one iteration of the merge loop can end. *)
Inductive iteration (document : Z) (l1 l2 : list Z) (st st' : MergeState) : Prop :=
  | iteration_match :
      thereIsNoMatch st' = false →
      matchingDocuments st' = matchingDocuments st ++ [document] →
      idx_i st' = idx_i st → idx_j st' = idx_j st →
      notOutOfBounds st' = notOutOfBounds st →
      iteration document l1 l2 st st'
  | iteration_advance_i :
      idx_i st' = S (idx_i st) → idx_j st' = idx_j st →
      thereIsNoMatch st' = thereIsNoMatch st →
      notOutOfBounds st' = notOutOfBounds st →
      matchingDocuments st' = matchingDocuments st →
      iteration document l1 l2 st st'
  | iteration_advance_j :
      idx_i st' = idx_i st → idx_j st' = S (idx_j st) →
      thereIsNoMatch st' = thereIsNoMatch st →
      notOutOfBounds st' = notOutOfBounds st →
      matchingDocuments st' = matchingDocuments st →
      iteration document l1 l2 st st'
  | iteration_stop :
      notOutOfBounds st' = false →
      idx_i st' = idx_i st → idx_j st' = idx_j st →
      thereIsNoMatch st' = thereIsNoMatch st →
      matchingDocuments st' = matchingDocuments st →
      iteration document l1 l2 st st'.

(** Number of iterations the loop can still make from an in-bounds state. *)
Definition remaining (l1 l2 : list Z) (st : MergeState) : nat :=
  (length l1 - idx_i st) + (length l2 - idx_j st) - 1.

(** The match condition of line 147 on a pair of positions. *)
Definition matchCondition (isPhrase : bool) (distance a b : Z) : Prop :=
  Z.abs (a - b) ≤ distance ∧ (isPhrase = true → a - b ≤ 0).

(** No pair with an index already passed satisfies the match condition. *)
Definition passed (isPhrase : bool) (distance : Z) (l1 l2 : list Z)
    (st : MergeState) : Prop :=
  ∀ i' j' a b, l1 !! i' = Some a → l2 !! j' = Some b →
    (i' < idx_i st ∨ j' < idx_j st)%nat →
    ¬ matchCondition isPhrase distance a b.

Definition somePairMatches (isPhrase : bool) (distance : Z) (l1 l2 : list Z)
  : Prop :=
  ∃ a b, a ∈ l1 ∧ b ∈ l2 ∧ matchCondition isPhrase distance a b.

(** [document] is a candidate of a pair of postings dictionaries, with
    position lists [l1] and [l2]. *)
Definition candidate (dict1 dict2 : gmap Z (list Z)) (document : Z)
    (l1 l2 : list Z) : Prop :=
  dict1 !! document = Some l1 ∧ dict2 !! document = Some l2.

(** The postings dictionary [proximityHandler] fetches for a term of the
    pair. *)
Definition postingsOf (toLowerCase stemWordPorter : string → string)
    (ii : InvertedIndex) (term : string) : gmap Z (list Z) :=
  getTermDocumentDictionary ii
    (preprocessedTerm toLowerCase stemWordPorter (Py.strip term)).

(** The document set [simpleExpressionHandler] computes for the text that
    follows the literal NOT (lines 82-85). *)
Definition documentSetOf (toLowerCase stemWordPorter : string → string)
    (ii : InvertedIndex) (text : string) : Res (gset Z) :=
  if Py.contains (String dquote EmptyString) text
  then phraseHandler toLowerCase stemWordPorter ii text
  else Ok (getTermDocumentSet ii (preprocessedTerm toLowerCase stemWordPorter text)).

(** The partial score as the specification words it: the quotient of the
    collection size by the document frequency is a real quotient. *)
Definition specPartialScore (collectionSize : Z) (positions : list Z)
    (df : Z) : R :=
  ((1 + np_log10 (IZR (len positions))) *
   np_log10 (IZR collectionSize / IZR df))%R.

(** What one query token adds to the score of a document: nothing when
    the token is empty, a stop-word, or does not occur in the document. *)
Definition tokenContribution (stemWordPorter : string → string)
    (isNotAStopword : string → bool) (ii : InvertedIndex) (docIDSet : gset Z)
    (doc : Z) (term : string) : option R :=
  if (0 <? len (list_ascii_of_string term)) && isNotAStopword term then
    match getTermDocumentDictionary ii (stemWordPorter term) !! doc with
    | Some positions =>
        Some (partialScore docIDSet positions
                (Z.of_nat (size (getTermDocumentDictionary ii (stemWordPorter term)))))
    | None => None
    end
  else None.

(** Running score of a document: absent until the first contribution. *)
Definition accumulate (score : option R) (c : R) : option R :=
  Some (match score with None => c | Some v => (v + c)%R end).

Definition sumR (cs : list R) : R := foldr Rplus 0%R cs.

(** Result sets of exactly one thousand and of one thousand and one
    entries. *)
Definition thousandDocuments : gset Z := list_to_set (seqZ 1 1000).
Definition thousandAndOneDocuments : gset Z := list_to_set (seqZ 1 1001).
Definition thousandScores : gmap Z R :=
  list_to_map ((λ doc, (doc, 0%R)) <$> seqZ 1 1000).
Definition thousandAndOneScores : gmap Z R :=
  list_to_map ((λ doc, (doc, 0%R)) <$> seqZ 1 1001).

(** Every character of a string satisfies a test. *)
Fixpoint all_chars (P : ascii → bool) (s : string) : bool :=
  match s with
  | EmptyString => true
  | String c s' => P c && all_chars P s'
  end.

(** The character [c] does not occur in the string. *)
Definition lacks (c : ascii) (s : string) : bool :=
  all_chars (λ x, negb (Ascii.eqb x c)) s.

(** A single term used as an operand: no whitespace, no double quote, no
    proximity marker, and no occurrence of the literal NOT. *)
Definition plain_char (c : ascii) : bool :=
  negb (Py.is_space c) && negb (is_quote c) && negb (Ascii.eqb c "#").

Definition term_like (w : string) : Prop :=
  all_chars plain_char w = true ∧ Py.contains "NOT" w = false.

(** A word of a phrase: no blank and no comma. *)
Definition word_char (c : ascii) : bool :=
  negb (Ascii.eqb c " ") && negb (Ascii.eqb c ",").

Definition word (w : string) : Prop := all_chars word_char w = true.

(** Every position list of a postings dictionary is ascending. *)
Definition ascending_postings (d : gmap Z (list Z)) : Prop :=
  map_Forall (λ _ l, ascending l) d.

#[global] Instance ascending_postings_dec d : Decision (ascending_postings d).
Proof. unfold ascending_postings, ascending. apply _. Defined.

(** ** Batch drivers and query files *)

(** [d[k] = v] on an [OrderedDict]: a key that is present keeps its place
    and takes the new value, a new key goes last. *)
Fixpoint od_set {A} (k : Z) (v : A) (d : list (Z * A)) : list (Z * A) :=
  match d with
  | [] => [(k, v)]
  | kv :: d' => if kv.1 =? k then (k, v) :: d' else kv :: od_set k v d'
  end.

Section Drivers.
Variable toLowerCase : string → string.
Variable stemWordPorter : string → string.
Variable tokenize : string → list string.
Variable isNotAStopword : string → bool.
Variable ii : InvertedIndex.
Variable docIDSet : gset Z.

(** The lines [executeBooleanQueries] writes to the boolean results file;
    an exception of a query leaves the loop before the file is opened. *)
Definition executeBooleanQueries (booleanQueriesDictionary : list (Z * string))
  : Res (list ResultLine) :=
  queryResults <~
    foldM (λ queryResults kv,
             result <~ complexExpressionHandler toLowerCase stemWordPorter ii
                         docIDSet kv.2;
             Ok (od_set kv.1 result queryResults))
          [] booleanQueriesDictionary;
  Ok (writeBooleanResultsToFile queryResults).

(** The lines [executeTFIDFQueries] writes to the ranked results file. *)
Definition executeTFIDFQueries (tfidfQueriesDictionary : list (Z * string))
  : list ResultLine :=
  writeTFIDFResultsToFile
    (foldl (λ queryResults kv,
              od_set kv.1
                (calculateTFIDF toLowerCase stemWordPorter tokenize
                   isNotAStopword ii docIDSet kv.2)
                queryResults)
           [] tfidfQueriesDictionary).
End Drivers.

(** [int(s)] on a Python 2 [str]: an integer literal in base 10,
    surrounded by optional whitespace and preceded by an optional sign
    with no space in between; anything else is a [ValueError]. *)
Definition int_digits (s : string) : Res Z :=
  match s with
  | EmptyString => Raise ValueError
  | String _ _ =>
      if all_chars Py.is_digit s then Ok (Py.int_go 0 s) else Raise ValueError
  end.

Definition int_literal (s : string) : Res Z :=
  match Py.strip s with
  | String "+" digits => int_digits digits
  | String "-" digits => n <~ int_digits digits; Ok (- n)
  | t => int_digits t
  end.

(** Body of the loop of [parseQueriesFile] (lines 301-302): the right-hand
    side of the assignment is evaluated before the key. *)
Definition parseQueryLine (dictionaryOfQueries : list (Z * string))
    (line : string) : Res (list (Z * string)) :=
  let splittedQuery := Py.split1 " " line in
  text <~ getitem splittedQuery 1;
  idText <~ getitem splittedQuery 0;
  queryID <~ int_literal (Py.strip idText);
  Ok (od_set queryID (Py.strip text) dictionaryOfQueries).

(** [parseQueriesFile] on the lines of the query file. *)
Definition parseQueriesFile (lines : list string) : Res (list (Z * string)) :=
  foldM parseQueryLine [] lines.

(** The part of the loop of [importInvertedIndexFromFile] that reads a
    document line of the index file (lines 321-324): the document ID and
    the list of positions that are handed to the index. *)
Definition parseDocumentLine (line : string) : Res (Z * list Z) :=
  let termDocEntry := Py.split ":" line in
  idText <~ getitem termDocEntry 0;
  docID <~ int_literal (Py.strip idText);
  positionsText <~ getitem termDocEntry 1;
  listOfPositions <~ mapM int_literal (Py.split "," (Py.strip positionsText));
  Ok (docID, listOfPositions).

(** [sep.join(pieces)] *)
Fixpoint join (sep : string) (pieces : list string) : string :=
  match pieces with
  | [] => EmptyString
  | [piece] => piece
  | piece :: rest => piece +:+ sep +:+ join sep rest
  end.

(** A non-empty string of digits. *)
Definition numeral (d : string) : Prop :=
  d ≠ EmptyString ∧ all_chars Py.is_digit d = true.

Definition tab : ascii := "009"%char.
Definition newline : ascii := "010"%char.

(** The query a line of a results file belongs to, and the documents and
    scores of a list of lines. *)
Definition lineQuery (line : ResultLine) : Z :=
  match line with
  | NullLine k => k
  | BooleanLine k _ => k
  | TFIDFLine k _ _ => k
  end.


(** * Proofs *)

(** ** The embedding on sample inputs *)

Example split_samples :
  Py.split " AND " "a AND b AND c" = ["a"; "b"; "c"] ∧
  Py.split "," "a," = ["a"; EmptyString] ∧
  Py.split "," EmptyString = [EmptyString] ∧
  Py.split "aa" "baaab" = ["b"; "ab"] ∧
  Py.split1 "NOT" "xNOTyNOTz" = ["x"; "yNOTz"] ∧
  Py.strip "  a b  " = "a b" ∧
  Py.int (Py.remove (λ c, negb (Py.is_digit c)) "#15") = Ok 15.
Proof. repeat split; reflexivity. Qed.

Example sample_queries :
  Sample.evaluate "#1(cat, dog)" = Ok {[ 1 ]} ∧
  Sample.evaluate (quoted "cat dog") = Ok {[ 1 ]} ∧
  Sample.evaluate (quoted "dog cat") = Ok ∅ ∧
  Sample.evaluate "cat AND dog" = Ok {[ 1 ]} ∧
  Sample.evaluate "cat OR dog" = Ok {[ 1; 2; 3 ]} ∧
  Sample.evaluate "NOT cat" = Ok {[ 3 ]} ∧
  Sample.evaluate (quoted "cat") = Raise IndexError ∧
  Sample.evaluate "#(cat, dog)" = Raise ValueError.
Proof. repeat split; vm_compute; reflexivity. Qed.

(** ** Strings *)

Section StringFacts.
Implicit Types (s t p w : string) (c x : ascii).

Lemma append_cons c s t : String c s +:+ t = String c (s +:+ t).
Proof. reflexivity. Qed.

Lemma append_empty_l s : EmptyString +:+ s = s.
Proof. reflexivity. Qed.

Lemma append_assoc s t w : (s +:+ t) +:+ w = s +:+ t +:+ w.
Proof. induction s as [|c s IH]; [done|]. by rewrite !append_cons, IH. Qed.

Lemma all_chars_app P s t :
  all_chars P (s +:+ t) = all_chars P s && all_chars P t.
Proof.
  induction s as [|c s IH]; [done|].
  rewrite append_cons. simpl. by rewrite IH, andb_assoc.
Qed.

Lemma all_chars_impl (P Q : ascii → bool) s :
  (∀ c, P c = true → Q c = true) → all_chars P s = true → all_chars Q s = true.
Proof.
  intros HPQ. induction s as [|c s IH]; [done|]. simpl.
  rewrite !andb_true_iff. intros [? ?]. auto.
Qed.

Lemma startswith_app p s : Py.startswith p (p +:+ s) = true.
Proof.
  induction p as [|c p IH]; [done|].
  rewrite append_cons. simpl. by rewrite Ascii.eqb_refl, IH.
Qed.

Lemma startswith_first c0 p c s :
  negb (Ascii.eqb c c0) = true → Py.startswith (String c0 p) (String c s) = false.
Proof.
  intros Hne. simpl. rewrite Ascii.eqb_sym.
  by destruct (Ascii.eqb c c0).
Qed.

(** A pattern without the character [x] cannot see past an [x]. *)
Lemma startswith_app_lacks p w x s :
  lacks x p = true →
  Py.startswith p (w +:+ String x s) = Py.startswith p w.
Proof.
  revert w. induction p as [|a p IH]; intros w Hp; [by destruct w|].
  apply andb_true_iff in Hp as [Hax Hp].
  destruct w as [|b w].
  - rewrite append_empty_l. simpl. by apply negb_true_iff in Hax as ->.
  - rewrite append_cons. simpl. by rewrite IH.
Qed.

(** A pattern with the character [c] matches nowhere in a string without it. *)
Lemma startswith_lacks p c s :
  lacks c s = true → lacks c p = false → Py.startswith p s = false.
Proof.
  revert s. induction p as [|a p IH]; intros s Hs Hp; [done|].
  destruct s as [|b s]; [done|]. simpl.
  apply andb_true_iff in Hs as [Hb Hs].
  apply andb_false_iff in Hp as [Ha|Hp].
  - apply negb_false_iff, Ascii.eqb_eq in Ha as ->.
    apply negb_true_iff in Hb. rewrite Ascii.eqb_sym. by rewrite Hb.
  - by rewrite IH, andb_false_r.
Qed.

Lemma startswith_drop p s :
  Py.startswith p s = true → s = p +:+ Py.drop (String.length p) s.
Proof.
  revert s. induction p as [|a p IH]; intros s Hs; [done|].
  destruct s as [|b s]; [done|]. simpl in Hs.
  apply andb_true_iff in Hs as [->%Ascii.eqb_eq Hs].
  rewrite append_cons. simpl. f_equal. by apply IH.
Qed.

Lemma drop_app p s : Py.drop (String.length p) (p +:+ s) = s.
Proof. induction p as [|a p IH]; [by destruct s|]. by rewrite append_cons. Qed.

Lemma contains_cons p c s :
  Py.contains p (String c s) = Py.startswith p (String c s) || Py.contains p s.
Proof. reflexivity. Qed.

Lemma contains_app p w s : Py.contains p (w +:+ p +:+ s) = true.
Proof.
  induction w as [|c w IH].
  - rewrite append_empty_l. destruct (p +:+ s) eqn:E; simpl;
      rewrite <- E, startswith_app; done.
  - rewrite append_cons, contains_cons, IH. apply orb_true_r.
Qed.

(** No occurrence of a pattern starts inside a prefix that lacks the first
    character of the pattern. *)
Lemma contains_app_lacks c0 p w s :
  lacks c0 w = true →
  Py.contains (String c0 p) (w +:+ s) = Py.contains (String c0 p) s.
Proof.
  induction w as [|c w IH]; intros Hw; [done|].
  apply andb_true_iff in Hw as [Hc Hw].
  rewrite append_cons, contains_cons, startswith_first by done.
  by rewrite IH.
Qed.

Lemma contains_lacks c0 p w :
  lacks c0 w = true → Py.contains (String c0 p) w = false.
Proof.
  induction w as [|c w IH]; intros Hw; [done|].
  apply andb_true_iff in Hw as [Hc Hw].
  rewrite contains_cons, startswith_first by done. by rewrite IH.
Qed.

(** *** [split] *)

Lemma split_go_nonempty p k s : Py.split_go p k s ≠ [].
Proof.
  revert k. induction s as [|c s IH]; intros k; [done|].
  destruct k as [|k]; simpl; [|apply IH].
  destruct (Py.startswith p (String c s)); [done|].
  by destruct (Py.split_go p 0 s).
Qed.

(** Consuming the rest of a recognised separator. *)
Lemma split_go_skip p p' s :
  Py.split_go p (String.length p') (p' +:+ s) = Py.split_go p 0 s.
Proof.
  induction p' as [|c p' IH]; [by destruct s|].
  by rewrite append_cons.
Qed.

Lemma split_sep c0 p s :
  Py.split (String c0 p) (String c0 p +:+ s) =
  EmptyString :: Py.split (String c0 p) s.
Proof.
  unfold Py.split. rewrite append_cons.
  change (Py.split_go (String c0 p) 0 (String c0 (p +:+ s))) with
    (if Py.startswith (String c0 p) (String c0 (p +:+ s))
     then EmptyString :: Py.split_go (String c0 p) (String.length p) (p +:+ s)
     else match Py.split_go (String c0 p) 0 (p +:+ s) with
          | q :: qs => String c0 q :: qs
          | [] => [String c0 EmptyString]
          end).
  rewrite <- append_cons, startswith_app. by rewrite split_go_skip.
Qed.

Lemma split_cons c0 p c s :
  negb (Ascii.eqb c c0) = true →
  Py.split (String c0 p) (String c s) =
  match Py.split (String c0 p) s with
  | q :: qs => String c q :: qs
  | [] => [String c EmptyString]
  end.
Proof.
  intros Hc. unfold Py.split.
  change (Py.split_go (String c0 p) 0 (String c s)) with
    (if Py.startswith (String c0 p) (String c s)
     then EmptyString :: Py.split_go (String c0 p) (String.length p) s
     else match Py.split_go (String c0 p) 0 s with
          | q :: qs => String c q :: qs
          | [] => [String c EmptyString]
          end).
  by rewrite startswith_first.
Qed.

(** The piece before the first separator, when it lacks the first
    character of the separator. *)
Lemma split_app c0 p w s :
  lacks c0 w = true →
  Py.split (String c0 p) (w +:+ String c0 p +:+ s) =
  w :: Py.split (String c0 p) s.
Proof.
  induction w as [|c w IH]; intros Hw.
  - rewrite append_empty_l. apply split_sep.
  - apply andb_true_iff in Hw as [Hc Hw].
    rewrite append_cons, split_cons, IH; done.
Qed.

Lemma split_lacks c0 p w :
  lacks c0 w = true → Py.split (String c0 p) w = [w].
Proof.
  induction w as [|c w IH]; intros Hw; [done|].
  apply andb_true_iff in Hw as [Hc Hw].
  rewrite split_cons, IH; done.
Qed.

(** A string that contains the separator splits into two pieces or more. *)
Lemma split_contains c0 p s :
  Py.contains (String c0 p) s = true →
  ∃ a b rest, Py.split (String c0 p) s = a :: b :: rest.
Proof.
  unfold Py.split. induction s as [|c s IH]; intros Hs; [done|].
  rewrite contains_cons in Hs.
  change (Py.split_go (String c0 p) 0 (String c s)) with
    (if Py.startswith (String c0 p) (String c s)
     then EmptyString :: Py.split_go (String c0 p) (String.length p) s
     else match Py.split_go (String c0 p) 0 s with
          | q :: qs => String c q :: qs
          | [] => [String c EmptyString]
          end).
  destruct (Py.startswith (String c0 p) (String c s)).
  - pose proof (split_go_nonempty (String c0 p) (String.length p) s).
    destruct (Py.split_go (String c0 p) (String.length p) s); [done|]. eauto.
  - destruct (IH Hs) as (a & b & rest & ->). eauto.
Qed.

(** *** [split(sep, 1)] *)

Lemma partition_cons p c s :
  Py.startswith p (String c s) = false →
  Py.partition p (String c s) =
  match Py.partition p s with
  | Some (b, a) => Some (String c b, a)
  | None => None
  end.
Proof.
  intros Hs.
  change (Py.partition p (String c s)) with
    (if Py.startswith p (String c s)
     then Some (EmptyString, Py.drop (String.length p) (String c s))
     else match Py.partition p s with
          | Some (b, a) => Some (String c b, a)
          | None => None
          end).
  by rewrite Hs.
Qed.

Lemma partition_here p s :
  Py.startswith p s = true →
  Py.partition p s = Some (EmptyString, Py.drop (String.length p) s).
Proof. intros Hs. destruct s; simpl; by rewrite Hs. Qed.

Lemma partition_contains p s :
  Py.contains p s = true → ∃ b a, Py.partition p s = Some (b, a).
Proof.
  induction s as [|c s IH]; intros Hs.
  - simpl in Hs. rewrite orb_false_r in Hs. rewrite partition_here; eauto.
  - rewrite contains_cons in Hs.
    destruct (Py.startswith p (String c s)) eqn:Hp.
    + rewrite partition_here; eauto.
    + rewrite partition_cons by done.
      destruct (IH Hs) as (b & a & ->). eauto.
Qed.

(** [partition] cuts at the first occurrence of the pattern. *)
Lemma partition_first p s b a :
  Py.partition p s = Some (b, a) →
  s = b +:+ p +:+ a ∧
  ∀ u v, b = u +:+ v → v ≠ EmptyString →
         Py.startswith p (v +:+ p +:+ a) = false.
Proof.
  revert b. induction s as [|c s IH]; intros b Hpart.
  - simpl in Hpart. destruct (Py.startswith p EmptyString) eqn:Hp; [|done].
    simplify_eq. split; [by apply startswith_drop|].
    intros [|] [|]; done.
  - destruct (Py.startswith p (String c s)) eqn:Hp.
    + rewrite partition_here in Hpart by done. simplify_eq.
      split; [by apply startswith_drop|]. intros [|] [|]; done.
    + rewrite partition_cons in Hpart by done.
      destruct (Py.partition p s) as [[b' a']|] eqn:Hrec; [|done].
      simplify_eq. destruct (IH b' eq_refl) as [-> Hfirst].
      split; [done|]. intros [|c' u] v Huv Hv.
      * rewrite append_empty_l in Huv. subst v. by rewrite append_cons.
      * rewrite append_cons in Huv. simplify_eq. by apply (Hfirst u).
Qed.

(** *** [strip], [re.sub] *)

Lemma lstrip_id s :
  all_chars (λ c, negb (Py.is_space c)) s = true → Py.lstrip s = s.
Proof.
  destruct s as [|c s]; [done|]. simpl.
  intros [Hc _]%andb_true_iff. by apply negb_true_iff in Hc as ->.
Qed.

Lemma rstrip_id s :
  all_chars (λ c, negb (Py.is_space c)) s = true → Py.rstrip s = s.
Proof.
  induction s as [|c s IH]; [done|]. simpl.
  intros [Hc Hs]%andb_true_iff. rewrite IH by done.
  apply negb_true_iff in Hc as ->. by destruct s.
Qed.

Lemma strip_id s :
  all_chars (λ c, negb (Py.is_space c)) s = true → Py.strip s = s.
Proof. intros Hs. unfold Py.strip. by rewrite lstrip_id, rstrip_id. Qed.

Lemma remove_app f s t :
  Py.remove f (s +:+ t) = Py.remove f s +:+ Py.remove f t.
Proof.
  induction s as [|c s IH]; [done|]. rewrite append_cons. simpl.
  destruct (f c); by rewrite IH.
Qed.

Lemma replace_app x y s t :
  Py.replace x y (s +:+ t) = Py.replace x y s +:+ Py.replace x y t.
Proof.
  induction s as [|c s IH]; [done|]. rewrite append_cons. simpl.
  by rewrite IH.
Qed.
End StringFacts.

(** ** The merge loop *)

Section MergeFacts.
Context (isPhrase : bool) (distance document : Z) (l1 l2 : list Z).

Local Abbreviation body := (mergeBody isPhrase distance document l1 l2).
Local Abbreviation loop := (mergeWhile isPhrase distance document l1 l2).

Lemma matchCondition_test a b :
  (Z.abs (a - b) <=? distance) &&
    (if isPhrase then a - b <=? 0 else true) = true
  ↔ matchCondition isPhrase distance a b.
Proof.
  unfold matchCondition. rewrite andb_true_iff, Z.leb_le.
  destruct isPhrase; rewrite ?Z.leb_le; intuition congruence.
Qed.

Lemma mergeWhile_stop fuel st :
  thereIsNoMatch st && notOutOfBounds st = false → loop fuel st = Ok st.
Proof. intros H. destruct fuel; simpl; rewrite H; reflexivity. Qed.

Lemma mergeBody_iteration st :
  inBounds l1 l2 st →
  ∃ st', body st = Ok st' ∧ iteration document l1 l2 st st' ∧
         inBounds l1 l2 st'.
Proof.
  intros [Hi Hj].
  destruct (lookup_lt_is_Some_2 _ _ Hi) as [a Ha].
  destruct (lookup_lt_is_Some_2 _ _ Hj) as [b Hb].
  unfold mergeBody, getitem. rewrite Ha, Hb. simpl.
  destruct (_ && _) eqn:Hm.
  { eexists; split; [reflexivity|]. split; [by constructor 1|]. by split. }
  destruct ((a <? b) && _) eqn:Hadv_i.
  { apply andb_true_iff in Hadv_i as [_ Hlt%Z.ltb_lt].
    eexists; split; [reflexivity|]. split; [by constructor 2|].
    split; simpl; [lia|done]. }
  destruct ((a >=? b) && _) eqn:Hadv_j.
  { apply andb_true_iff in Hadv_j as [_ Hlt%Z.ltb_lt].
    eexists; split; [reflexivity|]. split; [by constructor 3|].
    split; simpl; [done|lia]. }
  eexists; split; [reflexivity|]. split; [by constructor 4|]. by split.
Qed.

Lemma mergeWhile_total fuel st :
  inBounds l1 l2 st → (remaining l1 l2 st < fuel)%nat →
  ∃ st', loop fuel st = Ok st' ∧ inBounds l1 l2 st' ∧
         thereIsNoMatch st' && notOutOfBounds st' = false ∧
         (matchingDocuments st' = matchingDocuments st ∨
          matchingDocuments st' = matchingDocuments st ++ [document]).
Proof.
  revert st. induction fuel as [|fuel IH]; intros st Hin Hfuel.
  - destruct Hin as [Hi Hj]. unfold remaining in Hfuel. lia.
  - destruct (thereIsNoMatch st && notOutOfBounds st) eqn:Hflags.
    2:{ exists st. rewrite mergeWhile_stop by done. auto. }
    simpl. rewrite Hflags.
    destruct (mergeBody_iteration st Hin) as (st1 & -> & Hit & Hin1). simpl.
    assert (Hin' := Hin). destruct Hin' as [Hi Hj], Hin1 as [Hi1 Hj1].
    destruct Hit as [Hm Hmd ? ? ?|Hi' Hj' Hf1 Hf2 Hmd|Hi' Hj' Hf1 Hf2 Hmd
                     |Hs ? ? ? Hmd].
    + exists st1. rewrite mergeWhile_stop by (by rewrite Hm).
      rewrite Hm. repeat split; auto.
    + destruct (IH st1) as (st' & Hrun & ? & ? & Hmd').
      { by split. } { unfold remaining in *. lia. }
      exists st'. rewrite <- Hmd. auto.
    + destruct (IH st1) as (st' & Hrun & ? & ? & Hmd').
      { by split. } { unfold remaining in *. lia. }
      exists st'. rewrite <- Hmd. auto.
    + exists st1. rewrite mergeWhile_stop by (rewrite Hs; apply andb_false_r).
      rewrite Hs, andb_false_r. repeat split; auto.
Qed.

Lemma matchCondition_right a b b' :
  ¬ matchCondition isPhrase distance a b → a < b → b ≤ b' →
  ¬ matchCondition isPhrase distance a b'.
Proof. unfold matchCondition. intros Hn Hab Hb [H1 H2]. apply Hn. lia. Qed.

Lemma matchCondition_left a a' b :
  ¬ matchCondition isPhrase distance a b → b ≤ a → a ≤ a' →
  ¬ matchCondition isPhrase distance a' b.
Proof.
  unfold matchCondition. intros Hn Hab Ha [H1 H2]. apply Hn.
  split; [lia|]. intros Hp. specialize (H2 Hp). lia.
Qed.

Lemma ascending_lookup_le (l : list Z) i j a b :
  ascending l → l !! i = Some a → l !! j = Some b → (i ≤ j)%nat → a ≤ b.
Proof.
  intros Hs. revert i j. induction Hs as [|x l Hs IH Hall]; intros i j Hi Hj Hij.
  - by rewrite lookup_nil in Hi.
  - destruct i as [|i], j as [|j]; simpl in *; simplify_eq; try lia.
    + rewrite Forall_forall in Hall.
      apply list_elem_of_lookup_2, Hall in Hj. lia.
    + eapply IH; eauto with lia.
Qed.

Local Abbreviation passed := (passed isPhrase distance l1 l2).

Lemma mergeWhile_correct fuel st :
  ascending l1 → ascending l2 →
  inBounds l1 l2 st → (remaining l1 l2 st < fuel)%nat →
  thereIsNoMatch st = true → notOutOfBounds st = true →
  passed st →
  ∃ st', loop fuel st = Ok st' ∧
    ((somePairMatches isPhrase distance l1 l2 ∧
      matchingDocuments st' = matchingDocuments st ++ [document]) ∨
     (¬ somePairMatches isPhrase distance l1 l2 ∧
      matchingDocuments st' = matchingDocuments st)).
Proof.
  intros Hs1 Hs2. revert st.
  induction fuel as [|fuel IH]; intros st Hin Hfuel Hnm Hnb Hpassed; [lia|].
  destruct Hin as [Hi Hj].
  destruct (lookup_lt_is_Some_2 _ _ Hi) as [a Ha].
  destruct (lookup_lt_is_Some_2 _ _ Hj) as [b Hb].
  simpl. rewrite Hnm, Hnb. simpl.
  unfold mergeBody, getitem. rewrite Ha, Hb. simpl.
  destruct (_ && _) eqn:Hm.
  { apply matchCondition_test in Hm.
    cbn [bind]. eexists. rewrite mergeWhile_stop by done.
    split; [reflexivity|]. left. split; [|done]. exists a, b.
    eauto using list_elem_of_lookup_2. }
  assert (¬ matchCondition isPhrase distance a b) as Hno.
  { rewrite <- matchCondition_test. by rewrite Hm. }
  clear Hm.
  destruct ((a <? b) && _) eqn:Hadv_i.
  { apply andb_true_iff in Hadv_i as [Hab%Z.ltb_lt Hlt%Z.ltb_lt].
    cbn [bind].
    match goal with |- ∃ _, loop _ ?s = _ ∧ _ => apply (IH s) end;
      simpl; try done.
    - split; simpl; [lia|done].
    - unfold remaining in *; simpl. lia.
    - intros i' j' a' b' Ha' Hb' Hlt'. simpl in Hlt'.
      destruct (decide (i' < idx_i st ∨ j' < idx_j st)%nat) as [?|Hge].
      { by eapply Hpassed. }
      assert (i' = idx_i st) as -> by lia. simplify_eq.
      eapply matchCondition_right; [done..|].
      eapply (ascending_lookup_le l2); eauto with lia. }
  destruct ((a >=? b) && _) eqn:Hadv_j.
  { apply andb_true_iff in Hadv_j as [Hab Hlt%Z.ltb_lt].
    rewrite Z.geb_le in Hab.
    cbn [bind].
    match goal with |- ∃ _, loop _ ?s = _ ∧ _ => apply (IH s) end;
      simpl; try done.
    - split; simpl; [done|lia].
    - unfold remaining in *; simpl. lia.
    - intros i' j' a' b' Ha' Hb' Hlt'. simpl in Hlt'.
      destruct (decide (i' < idx_i st ∨ j' < idx_j st)%nat) as [?|Hge].
      { by eapply Hpassed. }
      assert (j' = idx_j st) as -> by lia. simplify_eq.
      eapply matchCondition_left; [done..|].
      eapply (ascending_lookup_le l1); eauto with lia. }
  cbn [bind]. eexists. rewrite mergeWhile_stop by (simpl; apply andb_false_r).
  split; [reflexivity|]. right. split; [|done].
  intros (a' & b' & [i' Ha']%list_elem_of_lookup_1
             & [j' Hb']%list_elem_of_lookup_1 & Hmatch).
  destruct (decide (i' < idx_i st ∨ j' < idx_j st)%nat) as [?|Hge].
  { by eapply Hpassed. }
  apply lookup_lt_Some in Ha' as Hi', Hb' as Hj'.
  destruct (Z.ltb_spec a b) as [Hab|Hab].
  - rewrite andb_true_l in Hadv_i. apply Z.ltb_ge in Hadv_i.
    assert (i' = idx_i st) as -> by lia. simplify_eq.
    revert Hmatch. eapply matchCondition_right; [done..|].
    eapply (ascending_lookup_le l2); eauto with lia.
  - assert ((a >=? b) = true) as Hge' by (rewrite Z.geb_le; lia).
    rewrite Hge', andb_true_l in Hadv_j. apply Z.ltb_ge in Hadv_j.
    assert (j' = idx_j st) as -> by lia. simplify_eq.
    revert Hmatch. eapply matchCondition_left; [done..|].
    eapply (ascending_lookup_le l1); eauto with lia.
Qed.
End MergeFacts.

(** ** Scanning the candidate documents *)

Section ScanFacts.
Context (isPhrase : bool) (distance : Z) (dict1 dict2 : gmap Z (list Z)).

Local Abbreviation scan := (scanDocument isPhrase distance dict1 dict2).

Lemma remaining_init l1 l2 matching :
  l1 ≠ [] → l2 ≠ [] →
  inBounds l1 l2 (mergeInit matching) ∧
  (remaining l1 l2 (mergeInit matching) < length l1 + length l2)%nat.
Proof.
  intros H1 H2. destruct l1, l2; try done.
  unfold inBounds, remaining; simpl. lia.
Qed.

Lemma scanDocument_total matching document l1 l2 :
  candidate dict1 dict2 document l1 l2 → l1 ≠ [] → l2 ≠ [] →
  ∃ matching', scan matching document = Ok matching' ∧
    (matching' = matching ∨ matching' = matching ++ [document]).
Proof.
  intros [Hd1 Hd2] H1 H2. unfold scanDocument, dict_getitem.
  rewrite Hd1, Hd2. cbn [bind].
  destruct (remaining_init l1 l2 matching H1 H2) as [Hin Hfuel].
  apply Nat.lt_lt_succ_r in Hfuel.
  destruct (mergeWhile_total isPhrase distance document l1 l2 _ _ Hin Hfuel)
    as (st' & -> & _ & _ & Hmd).
  cbn [bind]. eauto.
Qed.

Lemma scanDocument_correct matching document l1 l2 :
  candidate dict1 dict2 document l1 l2 → l1 ≠ [] → l2 ≠ [] →
  ascending l1 → ascending l2 →
  ∃ matching', scan matching document = Ok matching' ∧
    ((somePairMatches isPhrase distance l1 l2 ∧
      matching' = matching ++ [document]) ∨
     (¬ somePairMatches isPhrase distance l1 l2 ∧ matching' = matching)).
Proof.
  intros [Hd1 Hd2] H1 H2 Hs1 Hs2. unfold scanDocument, dict_getitem.
  rewrite Hd1, Hd2. cbn [bind].
  destruct (remaining_init l1 l2 matching H1 H2) as [Hin Hfuel].
  apply Nat.lt_lt_succ_r in Hfuel.
  destruct (mergeWhile_correct isPhrase distance document l1 l2 _ _
              Hs1 Hs2 Hin Hfuel) as (st' & -> & Hmd); try done.
  { intros i' j' a b _ _ Hlt. simpl in Hlt. lia. }
  cbn [bind]. eauto.
Qed.

Lemma foldM_scan x lx1 lx2 docs matching :
  (∀ doc, doc ∈ docs →
     ∃ l1 l2, candidate dict1 dict2 doc l1 l2 ∧ l1 ≠ [] ∧ l2 ≠ []) →
  candidate dict1 dict2 x lx1 lx2 → ascending lx1 → ascending lx2 →
  ∃ matching', foldM scan matching docs = Ok matching' ∧
    (x ∈ matching' ↔
     x ∈ matching ∨ (x ∈ docs ∧ somePairMatches isPhrase distance lx1 lx2)).
Proof.
  intros Hdocs Hx Hs1 Hs2. revert matching.
  induction docs as [|doc docs IH]; intros matching; simpl.
  - eexists; split; [done|]. set_solver.
  - destruct (Hdocs doc) as (l1 & l2 & Hc & H1 & H2); [set_solver|].
    assert (∀ d, d ∈ docs →
      ∃ l1 l2, candidate dict1 dict2 d l1 l2 ∧ l1 ≠ [] ∧ l2 ≠ []) as Hdocs'
      by (intros; apply Hdocs; set_solver).
    specialize (IH Hdocs').
    destruct (decide (doc = x)) as [->|Hne].
    + assert (l1 = lx1 ∧ l2 = lx2) as [-> ->].
      { destruct Hc, Hx. split; congruence. }
      destruct (scanDocument_correct matching x lx1 lx2)
        as (m1 & -> & Hm1); try done.
      cbn [bind]. destruct (IH m1) as (m' & -> & Hiff).
      exists m'. split; [done|]. rewrite Hiff.
      destruct Hm1 as [[Hsp ->]|[Hnsp ->]]; set_solver.
    + destruct (scanDocument_total matching doc l1 l2)
        as (m1 & -> & Hm1); try done.
      cbn [bind]. destruct (IH m1) as (m' & -> & Hiff).
      exists m'. split; [done|]. rewrite Hiff.
      destruct Hm1 as [->| ->]; set_solver.
Qed.
End ScanFacts.

(** On an empty position list the first read of the loop raises. *)
Example scan_of_empty_position_lists_raises :
  scanDocument true 1 {[ 1 := [] ]} {[ 1 := [] ]} [] 1 = Raise IndexError ∧
  scanDocument false 1 {[ 1 := [4] ]} {[ 1 := [] ]} [] 1 = Raise IndexError.
Proof. split; vm_compute; reflexivity. Qed.

(** ** The proximity handler *)

Section ProximityFacts.
Context (toLowerCase stemWordPorter : string → string) (ii : InvertedIndex).

Local Abbreviation proximity := (proximityHandler toLowerCase stemWordPorter ii).
Local Abbreviation postings := (postingsOf toLowerCase stemWordPorter ii).

Lemma candidates_nonempty dict1 dict2 (docs : list Z) :
  nonempty_postings dict1 → nonempty_postings dict2 →
  (∀ doc, doc ∈ docs → doc ∈ dom dict1 ∩ dom dict2) →
  ∀ doc, doc ∈ docs →
    ∃ l1 l2, candidate dict1 dict2 doc l1 l2 ∧ l1 ≠ [] ∧ l2 ≠ [].
Proof.
  intros Hn1 Hn2 Hdocs doc Hdoc.
  apply Hdocs, elem_of_intersection in Hdoc as [Hd1 Hd2].
  apply elem_of_dom in Hd1 as [l1 Hl1], Hd2 as [l2 Hl2].
  exists l1, l2. repeat split; try done.
  - by apply (Hn1 doc).
  - by apply (Hn2 doc).
Qed.

Lemma elem_of_sorted_candidates (dict1 dict2 : gmap Z (list Z)) doc :
  doc ∈ merge_sort Z.le (elements (dom dict1 ∩ dom dict2)) ↔
  doc ∈ dom dict1 ∩ dom dict2.
Proof. by rewrite merge_sort_Permutation, elem_of_elements. Qed.

(** The handler returns, and a candidate with ascending position lists is
    in the result exactly when some pair of its positions satisfies the
    match condition. *)
Lemma proximityHandler_spec q distance isPhrase term1 term2 rest doc l1 l2 :
  Py.split "," q = term1 :: term2 :: rest →
  nonempty_postings (postings term1) → nonempty_postings (postings term2) →
  candidate (postings term1) (postings term2) doc l1 l2 →
  ascending l1 → ascending l2 →
  ∃ result, proximity q distance isPhrase = Ok result ∧
    (doc ∈ result ↔ somePairMatches isPhrase distance l1 l2).
Proof.
  intros Hsplit Hn1 Hn2 Hc Hs1 Hs2.
  unfold proximityHandler. rewrite Hsplit. cbn [getitem lookup list_lookup bind].
  fold (postings term1) (postings term2).
  destruct (foldM_scan isPhrase distance (postings term1) (postings term2)
              doc l1 l2
              (merge_sort Z.le (elements (dom (postings term1) ∩ dom (postings term2))))
              []) as (matching & -> & Hiff); try done.
  { apply candidates_nonempty; try done.
    intros d. by rewrite elem_of_sorted_candidates. }
  cbn [bind]. eexists; split; [done|].
  rewrite elem_of_list_to_set, Hiff, elem_of_sorted_candidates.
  destruct Hc as [Hd1 Hd2].
  assert (doc ∈ dom (postings term1) ∩ dom (postings term2)).
  { apply elem_of_intersection; split; apply elem_of_dom; eauto. }
  set_solver.
Qed.
End ProximityFacts.

(** Settle a decidable proposition on concrete data by evaluation. *)
Ltac by_evaluation := refine (bool_decide_unpack _ _); vm_compute; exact I.

(** ** Properties of the proximity matcher *)

(** C8: for a candidate document of two postings dictionaries that list a
    document only with its (non-empty) positions, both position lists are
    non-empty; from in-bounds indices one iteration of the merge loop
    reads both lists without an [IndexError] and either records the match,
    advances exactly one of the two indices while staying in bounds, or
    clears [notOutOfBounds]; and the loop started at [i = j = 0] returns
    with one of its two flags cleared within as many iterations as the two
    lists have positions. *)
Theorem merge_loop_terminates_in_bounds
    (isPhrase : bool) (distance : Z) (dict1 dict2 : gmap Z (list Z))
    (document : Z) :
  nonempty_postings dict1 → nonempty_postings dict2 →
  document ∈ dom dict1 ∩ dom dict2 →
  ∃ l1 l2, candidate dict1 dict2 document l1 l2 ∧ l1 ≠ [] ∧ l2 ≠ [] ∧
    (∀ st, inBounds l1 l2 st →
       ∃ st', mergeBody isPhrase distance document l1 l2 st = Ok st' ∧
              iteration document l1 l2 st st' ∧ inBounds l1 l2 st') ∧
    (∀ matching fuel, (length l1 + length l2 ≤ fuel)%nat →
       ∃ st', mergeWhile isPhrase distance document l1 l2 fuel
                (mergeInit matching) = Ok st' ∧
              inBounds l1 l2 st' ∧
              thereIsNoMatch st' && notOutOfBounds st' = false).
Proof.
  intros Hn1 Hn2 Hdoc.
  destruct (candidates_nonempty dict1 dict2 [document] Hn1 Hn2) with document
    as (l1 & l2 & Hc & H1 & H2); [set_solver..|].
  exists l1, l2. repeat split; try done; try apply Hc.
  - apply mergeBody_iteration.
  - intros matching fuel Hfuel.
    destruct (remaining_init l1 l2 matching H1 H2) as [Hin Hrem].
    destruct (mergeWhile_total isPhrase distance document l1 l2 fuel
                (mergeInit matching)) as (st' & Hrun & Hin' & Hflags & _);
      [done|lia|].
    eauto.
Qed.

Lemma merge_loop_terminates_in_bounds_witness :
  ∃ l1 l2,
    candidate (postingsOf Sample.toLowerCase Sample.stemWordPorter Sample.index "cat")
              (postingsOf Sample.toLowerCase Sample.stemWordPorter Sample.index "dog")
              1 l1 l2 ∧ l1 ≠ [] ∧ l2 ≠ [] ∧
    (∀ st, inBounds l1 l2 st →
       ∃ st', mergeBody true 1 1 l1 l2 st = Ok st' ∧
              iteration 1 l1 l2 st st' ∧ inBounds l1 l2 st') ∧
    (∀ matching fuel, (length l1 + length l2 ≤ fuel)%nat →
       ∃ st', mergeWhile true 1 1 l1 l2 fuel (mergeInit matching) = Ok st' ∧
              inBounds l1 l2 st' ∧
              thereIsNoMatch st' && notOutOfBounds st' = false).
Proof.
  apply (merge_loop_terminates_in_bounds true 1
           (postingsOf Sample.toLowerCase Sample.stemWordPorter Sample.index "cat")
           (postingsOf Sample.toLowerCase Sample.stemWordPorter Sample.index "dog")
           1).
  - by_evaluation.
  - by_evaluation.
  - by_evaluation.
Defined.

(** C1: for a proximity query ([isPhrase = false]) with a non-negative
    distance and a candidate document whose position lists are ascending
    without duplicates, the handler returns a set that contains the
    document when the smallest gap between a position of term1 and a
    position of term2 equals [distance], and that does not contain it when
    every gap is at least [distance + 1]. *)
Theorem proximity_distance_boundary
    (toLowerCase stemWordPorter : string → string) (ii : InvertedIndex)
    (q : string) (distance : Z) (term1 term2 : string) (rest : list string)
    (document : Z) (l1 l2 : list Z) :
  Py.split "," q = term1 :: term2 :: rest →
  nonempty_postings (postingsOf toLowerCase stemWordPorter ii term1) →
  nonempty_postings (postingsOf toLowerCase stemWordPorter ii term2) →
  candidate (postingsOf toLowerCase stemWordPorter ii term1)
            (postingsOf toLowerCase stemWordPorter ii term2) document l1 l2 →
  ascending l1 → ascending l2 →
  0 ≤ distance →
  ∃ result,
    proximityHandler toLowerCase stemWordPorter ii q distance false = Ok result ∧
    ((∃ p1 p2, p1 ∈ l1 ∧ p2 ∈ l2 ∧ Z.abs (p1 - p2) = distance) →
     (∀ p1 p2, p1 ∈ l1 → p2 ∈ l2 → distance ≤ Z.abs (p1 - p2)) →
     document ∈ result) ∧
    ((∀ p1 p2, p1 ∈ l1 → p2 ∈ l2 → distance + 1 ≤ Z.abs (p1 - p2)) →
     document ∉ result).
Proof.
  intros Hsplit Hn1 Hn2 Hc Hs1 Hs2 Hd.
  destruct (proximityHandler_spec toLowerCase stemWordPorter ii q distance
              false term1 term2 rest document l1 l2)
    as (result & Hrun & Hiff); try done.
  exists result. split; [done|]. rewrite Hiff. split.
  - intros (p1 & p2 & Hp1 & Hp2 & Hgap) _.
    exists p1, p2. repeat split; try done. lia.
  - intros Hfar (p1 & p2 & Hp1 & Hp2 & Hgap & _).
    specialize (Hfar p1 p2 Hp1 Hp2). lia.
Qed.

Lemma proximity_distance_boundary_witness :
  ∃ result,
    proximityHandler Sample.toLowerCase Sample.stemWordPorter Sample.index
      "cat, dog" 1 false = Ok result ∧
    ((∃ p1 p2, p1 ∈ [3] ∧ p2 ∈ [4] ∧ Z.abs (p1 - p2) = 1) →
     (∀ p1 p2, p1 ∈ [3] → p2 ∈ [4] → 1 ≤ Z.abs (p1 - p2)) →
     1 ∈ result) ∧
    ((∀ p1 p2, p1 ∈ [3] → p2 ∈ [4] → 1 + 1 ≤ Z.abs (p1 - p2)) →
     1 ∉ result).
Proof.
  apply (proximity_distance_boundary Sample.toLowerCase Sample.stemWordPorter
           Sample.index "cat, dog" 1 "cat" " dog" [] 1 [3] [4]).
  - vm_compute. reflexivity.
  - by_evaluation.
  - by_evaluation.
  - split; vm_compute; reflexivity.
  - repeat constructor.
  - repeat constructor.
  - lia.
Defined.

(** C4: for a document in which every occurrence of term1 comes strictly
    after every occurrence of term2, with smallest gap 1, the match at
    distance 1 excludes the document when [isPhrase] is true and includes
    it when [isPhrase] is false. *)
Theorem phrase_match_is_order_sensitive
    (toLowerCase stemWordPorter : string → string) (ii : InvertedIndex)
    (q : string) (term1 term2 : string) (rest : list string)
    (document : Z) (l1 l2 : list Z) :
  Py.split "," q = term1 :: term2 :: rest →
  nonempty_postings (postingsOf toLowerCase stemWordPorter ii term1) →
  nonempty_postings (postingsOf toLowerCase stemWordPorter ii term2) →
  candidate (postingsOf toLowerCase stemWordPorter ii term1)
            (postingsOf toLowerCase stemWordPorter ii term2) document l1 l2 →
  ascending l1 → ascending l2 →
  (∀ p1 p2, p1 ∈ l1 → p2 ∈ l2 → p2 < p1) →
  (∃ p1 p2, p1 ∈ l1 ∧ p2 ∈ l2 ∧ p1 - p2 = 1) →
  ∃ asPhrase asProximity,
    proximityHandler toLowerCase stemWordPorter ii q 1 true = Ok asPhrase ∧
    proximityHandler toLowerCase stemWordPorter ii q 1 false = Ok asProximity ∧
    (document ∉ asPhrase) ∧ (document ∈ asProximity).
Proof.
  intros Hsplit Hn1 Hn2 Hc Hs1 Hs2 Hafter (p1 & p2 & Hp1 & Hp2 & Hgap).
  destruct (proximityHandler_spec toLowerCase stemWordPorter ii q 1
              true term1 term2 rest document l1 l2)
    as (asPhrase & Hrun1 & Hiff1); try done.
  destruct (proximityHandler_spec toLowerCase stemWordPorter ii q 1
              false term1 term2 rest document l1 l2)
    as (asProximity & Hrun2 & Hiff2); try done.
  exists asPhrase, asProximity. repeat split; try done.
  - rewrite Hiff1. intros (a & b & Ha & Hb & _ & Hord).
    specialize (Hafter a b Ha Hb). specialize (Hord eq_refl). lia.
  - rewrite Hiff2. exists p1, p2. repeat split; try done. lia.
Qed.

Lemma phrase_match_is_order_sensitive_witness :
  ∃ asPhrase asProximity,
    proximityHandler Sample.toLowerCase Sample.stemWordPorter Sample.index
      "dog,cat" 1 true = Ok asPhrase ∧
    proximityHandler Sample.toLowerCase Sample.stemWordPorter Sample.index
      "dog,cat" 1 false = Ok asProximity ∧
    (1 ∉ asPhrase) ∧ (1 ∈ asProximity).
Proof.
  apply (phrase_match_is_order_sensitive Sample.toLowerCase
           Sample.stemWordPorter Sample.index "dog,cat" "dog" "cat" [] 1
           [4] [3]).
  - vm_compute. reflexivity.
  - by_evaluation.
  - by_evaluation.
  - split; vm_compute; reflexivity.
  - repeat constructor.
  - repeat constructor.
  - intros p1 p2 ->%list_elem_of_singleton ->%list_elem_of_singleton. lia.
  - exists 4, 3. repeat split; try apply list_elem_of_singleton; reflexivity.
Defined.

(** ** Expressions *)

Lemma mapM_length {A B} (f : A → Res B) l ys :
  mapM f l = Ok ys → length ys = length l.
Proof.
  revert ys. induction l as [|x l IH]; intros ys; simpl.
  - by intros [= <-].
  - destruct (f x); [|done..]. cbn [bind].
    destruct (mapM f l); [|done..]. cbn [bind].
    intros [= <-]. simpl. by rewrite (IH _ eq_refl).
Qed.

Lemma term_like_lacks w :
  term_like w →
  lacks " " w = true ∧ lacks "#" w = true ∧ lacks dquote w = true ∧
  all_chars (λ c, negb (Py.is_space c)) w = true ∧
  Py.contains "NOT" w = false.
Proof.
  intros [Hplain Hnot]. repeat split; try done;
    (eapply all_chars_impl; [|exact Hplain]); intros c; unfold plain_char;
    rewrite !andb_true_iff; intros [[Hs Hq] Hh]; try done.
  apply negb_true_iff in Hs. apply negb_true_iff.
  destruct (Ascii.eqb_spec c " ") as [->|]; done.
Qed.

Lemma contains_AND_after_NOT B :
  lacks " " B = true → Py.contains " AND " (" NOT " +:+ B) = false.
Proof.
  intros HB.
  change (" NOT " +:+ B) with
    (String " " (String "N" (String "O" (String "T" (String " " B))))).
  rewrite !contains_cons, (contains_lacks " " "AND " B HB).
  change (Py.startswith " AND " (String " " B)) with (Py.startswith "AND " B).
  by rewrite (startswith_lacks "AND " " " B).
Qed.

Lemma contains_OR_after_NOT B :
  lacks " " B = true → Py.contains " OR " (" NOT " +:+ B) = false.
Proof.
  intros HB.
  change (" NOT " +:+ B) with
    (String " " (String "N" (String "O" (String "T" (String " " B))))).
  rewrite !contains_cons, (contains_lacks " " "OR " B HB).
  change (Py.startswith " OR " (String " " B)) with (Py.startswith "OR " B).
  by rewrite (startswith_lacks "OR " " " B).
Qed.

Lemma contains_hash_after_NOT B :
  lacks "#" B = true → Py.contains "#" (" NOT " +:+ B) = false.
Proof.
  intros HB.
  change (" NOT " +:+ B) with
    (String " " (String "N" (String "O" (String "T" (String " " B))))).
  by rewrite !contains_cons, (contains_lacks "#" EmptyString B HB).
Qed.

Lemma partition_NOT A B :
  Py.contains "NOT" A = false →
  Py.partition "NOT" (A +:+ " NOT " +:+ B) = Some (A +:+ " ", " " +:+ B).
Proof.
  induction A as [|c A IH]; intros HA; [done|].
  rewrite contains_cons in HA. apply orb_false_iff in HA as [Hc HA].
  rewrite append_cons, partition_cons.
  - by rewrite IH.
  - change (String c (A +:+ " NOT " +:+ B)) with
      (String c A +:+ String " " ("NOT " +:+ B)).
    by rewrite startswith_app_lacks.
Qed.

Lemma strip_after_blank B :
  all_chars (λ c, negb (Py.is_space c)) B = true → Py.strip (" " +:+ B) = B.
Proof.
  intros HB. change (Py.strip (" " +:+ B)) with (Py.strip B).
  by apply strip_id.
Qed.

Section ExpressionFacts.
Context (toLowerCase stemWordPorter : string → string).
Context (ii : InvertedIndex) (docIDSet : gset Z).

Local Abbreviation simple :=
  (simpleExpressionHandler toLowerCase stemWordPorter ii docIDSet).
Local Abbreviation evaluate :=
  (complexExpressionHandler toLowerCase stemWordPorter ii docIDSet).
Local Abbreviation docs :=
  (λ w, getTermDocumentSet ii (preprocessedTerm toLowerCase stemWordPorter w)).

Lemma simple_term w : term_like w → simple w = Ok (docs w).
Proof.
  intros (_ & _ & Hq & _ & Hnot)%term_like_lacks.
  unfold simpleExpressionHandler.
  by rewrite Hnot, (contains_lacks dquote EmptyString w Hq).
Qed.

Lemma simple_NOT e b a :
  Py.partition "NOT" e = Some (b, a) →
  simple e =
    (termDocumentSet <~ documentSetOf toLowerCase stemWordPorter ii (Py.strip a);
     Ok (docIDSet ∖ termDocumentSet)).
Proof.
  intros Hpart. unfold simpleExpressionHandler, Py.split1.
  destruct (partition_first _ _ _ _ Hpart) as [-> _].
  rewrite contains_app. rewrite Hpart. reflexivity.
Qed.

Lemma evaluate_term w : term_like w → evaluate w = Ok (docs w).
Proof.
  intros Hw. pose proof (term_like_lacks w Hw) as (Hs & Hh & _).
  unfold complexExpressionHandler.
  rewrite (contains_lacks " " "AND " w Hs), (contains_lacks " " "OR " w Hs),
    (contains_lacks "#" EmptyString w Hh).
  by apply simple_term.
Qed.

Lemma evaluate_NOT A B :
  term_like A → term_like B →
  evaluate (A +:+ " NOT " +:+ B) = Ok (docIDSet ∖ docs B).
Proof.
  intros (HsA & HhA & _ & _ & HnA)%term_like_lacks
         (HsB & HhB & HqB & HwB & _)%term_like_lacks.
  unfold complexExpressionHandler.
  rewrite (contains_app_lacks " " "AND " A _ HsA), contains_AND_after_NOT by done.
  rewrite (contains_app_lacks " " "OR " A _ HsA), contains_OR_after_NOT by done.
  rewrite (contains_app_lacks "#" EmptyString A _ HhA), contains_hash_after_NOT
    by done.
  rewrite (simple_NOT _ _ _ (partition_NOT A B HnA)).
  rewrite strip_after_blank by done. unfold documentSetOf.
  by rewrite (contains_lacks dquote EmptyString B HqB).
Qed.

Lemma evaluate_AND A B :
  term_like A → term_like B →
  evaluate (A +:+ " AND " +:+ B) = Ok (docs A ∩ docs B).
Proof.
  intros HA HB.
  pose proof (term_like_lacks A HA) as (HsA & _ & _ & HwA & _).
  pose proof (term_like_lacks B HB) as (HsB & _ & _ & HwB & _).
  unfold complexExpressionHandler.
  rewrite contains_app, (split_app " " "AND " A B HsA),
    (split_lacks " " "AND " B HsB).
  cbn [mapM]. rewrite !strip_id, !simple_term by done. reflexivity.
Qed.
End ExpressionFacts.

(** ** Properties of the expression evaluator *)

(** C5: when the query contains " AND " it splits into two operands or
    more; every operand, stripped, is evaluated as a simple expression,
    in order, also those beyond the second, so an exception of any of
    them leaves the handler; and when all evaluate the result is the
    intersection of the sets of the first two only. When the query
    contains " OR " and no " AND ", likewise with the union of the first
    two. *)
Theorem and_or_combine_first_two_operands
    (toLowerCase stemWordPorter : string → string) (ii : InvertedIndex)
    (docIDSet : gset Z) (query : string) :
  (Py.contains " AND " query = true →
   ∃ op0 op1 others,
     Py.split " AND " query = op0 :: op1 :: others ∧
     complexExpressionHandler toLowerCase stemWordPorter ii docIDSet query =
     (s0 <~ simpleExpressionHandler toLowerCase stemWordPorter ii docIDSet
              (Py.strip op0);
      s1 <~ simpleExpressionHandler toLowerCase stemWordPorter ii docIDSet
              (Py.strip op1);
      beyond <~ mapM (λ e, simpleExpressionHandler toLowerCase stemWordPorter
                             ii docIDSet (Py.strip e)) others;
      Ok (s0 ∩ s1))) ∧
  (Py.contains " AND " query = false → Py.contains " OR " query = true →
   ∃ op0 op1 others,
     Py.split " OR " query = op0 :: op1 :: others ∧
     complexExpressionHandler toLowerCase stemWordPorter ii docIDSet query =
     (s0 <~ simpleExpressionHandler toLowerCase stemWordPorter ii docIDSet
              (Py.strip op0);
      s1 <~ simpleExpressionHandler toLowerCase stemWordPorter ii docIDSet
              (Py.strip op1);
      beyond <~ mapM (λ e, simpleExpressionHandler toLowerCase stemWordPorter
                             ii docIDSet (Py.strip e)) others;
      Ok (s0 ∪ s1))).
Proof.
  split.
  - intros Hand.
    destruct (split_contains _ _ _ Hand) as (a & b & rest & Hsplit).
    exists a, b, rest. split; [done|].
    unfold complexExpressionHandler. rewrite Hand, Hsplit. cbn [mapM].
    destruct (simpleExpressionHandler _ _ _ _ (Py.strip a)); [|done..].
    cbn [bind].
    destruct (simpleExpressionHandler _ _ _ _ (Py.strip b)); [|done..].
    cbn [bind].
    by destruct (mapM _ rest).
  - intros Hand Hor.
    destruct (split_contains _ _ _ Hor) as (a & b & rest & Hsplit).
    exists a, b, rest. split; [done|].
    unfold complexExpressionHandler. rewrite Hand, Hor, Hsplit. cbn [mapM].
    destruct (simpleExpressionHandler _ _ _ _ (Py.strip a)); [|done..].
    cbn [bind].
    destruct (simpleExpressionHandler _ _ _ _ (Py.strip b)); [|done..].
    cbn [bind].
    by destruct (mapM _ rest).
Qed.

Lemma and_or_combine_first_two_operands_witness :
  (∃ op0 op1 others,
     Py.split " AND " ("cat AND dog AND " +:+ quoted "cat")
       = op0 :: op1 :: others ∧
     Sample.evaluate ("cat AND dog AND " +:+ quoted "cat") =
     (s0 <~ Sample.simple (Py.strip op0);
      s1 <~ Sample.simple (Py.strip op1);
      beyond <~ mapM (λ e, Sample.simple (Py.strip e)) others;
      Ok (s0 ∩ s1))) ∧
  (∃ op0 op1 others,
     Py.split " OR " "dog OR cat OR bird" = op0 :: op1 :: others ∧
     Sample.evaluate "dog OR cat OR bird" =
     (s0 <~ Sample.simple (Py.strip op0);
      s1 <~ Sample.simple (Py.strip op1);
      beyond <~ mapM (λ e, Sample.simple (Py.strip e)) others;
      Ok (s0 ∪ s1))).
Proof.
  split.
  - apply (proj1 (and_or_combine_first_two_operands Sample.toLowerCase
             Sample.stemWordPorter Sample.index Sample.docIDSet
             ("cat AND dog AND " +:+ quoted "cat"))).
    reflexivity.
  - apply (proj2 (and_or_combine_first_two_operands Sample.toLowerCase
             Sample.stemWordPorter Sample.index Sample.docIDSet
             "dog OR cat OR bird")); reflexivity.
Defined.

(** Operands beyond the second are evaluated and dropped: a third operand
    that raises makes the query raise, and one that evaluates does not
    change the result. *)
Example third_operand_is_evaluated_not_combined :
  Sample.evaluate ("cat AND dog AND " +:+ quoted "cat") = Raise IndexError ∧
  Sample.evaluate "cat AND dog AND bird" = Ok {[ 1 ]} ∧
  Sample.evaluate "cat AND dog" = Ok {[ 1 ]} ∧
  Sample.evaluate "bird OR cat OR dog" = Ok {[ 1; 2 ]}.
Proof. repeat split; vm_compute; reflexivity. Qed.

(** C6: for single-term operands A and B whose document sets lie in the
    universe set, "A NOT B" and "A AND B" evaluate to disjoint sets, and
    their union intersected with the evaluation of A is the evaluation of
    A. *)
Theorem complement_partition_law
    (toLowerCase stemWordPorter : string → string) (ii : InvertedIndex)
    (docIDSet : gset Z) (A B : string) :
  term_like A → term_like B →
  getTermDocumentSet ii (preprocessedTerm toLowerCase stemWordPorter A) ⊆ docIDSet →
  getTermDocumentSet ii (preprocessedTerm toLowerCase stemWordPorter B) ⊆ docIDSet →
  ∃ notB andB onlyA,
    complexExpressionHandler toLowerCase stemWordPorter ii docIDSet
      (A +:+ " NOT " +:+ B) = Ok notB ∧
    complexExpressionHandler toLowerCase stemWordPorter ii docIDSet
      (A +:+ " AND " +:+ B) = Ok andB ∧
    complexExpressionHandler toLowerCase stemWordPorter ii docIDSet A
      = Ok onlyA ∧
    notB ∩ andB = ∅ ∧ (notB ∪ andB) ∩ onlyA = onlyA.
Proof.
  intros HA HB HAU HBU.
  eexists _, _, _. split; [by apply evaluate_NOT|].
  split; [by apply evaluate_AND|]. split; [by apply evaluate_term|].
  cbv beta.
  generalize dependent
    (getTermDocumentSet ii (preprocessedTerm toLowerCase stemWordPorter A)).
  generalize dependent
    (getTermDocumentSet ii (preprocessedTerm toLowerCase stemWordPorter B)).
  intros setB HBU setA HAU. split; apply set_eq; intros x.
  - rewrite !elem_of_intersection, elem_of_difference, elem_of_empty. tauto.
  - rewrite !elem_of_intersection, elem_of_union, elem_of_difference,
      elem_of_intersection.
    split; [tauto|]. intros Hx. specialize (HAU x Hx).
    destruct (decide (x ∈ setB)); tauto.
Qed.

Lemma complement_partition_law_witness :
  ∃ notB andB onlyA,
    Sample.evaluate "cat NOT dog" = Ok notB ∧
    Sample.evaluate "cat AND dog" = Ok andB ∧
    Sample.evaluate "cat" = Ok onlyA ∧
    notB ∩ andB = ∅ ∧ (notB ∪ andB) ∩ onlyA = onlyA.
Proof.
  apply (complement_partition_law Sample.toLowerCase Sample.stemWordPorter
           Sample.index Sample.docIDSet "cat" "dog").
  - split; reflexivity.
  - split; reflexivity.
  - by_evaluation.
  - by_evaluation.
Defined.

(** C10: whenever the literal NOT occurs anywhere in a simple expression,
    also inside a longer word, the handler cuts the expression at the
    first occurrence, drops the text before it, and returns the universe
    set minus the document set of the text after it; in particular
    "A NOT B" on single terms evaluates to the complement of the document
    set of B, whatever A is. *)
Theorem not_complements_text_after_first_occurrence
    (toLowerCase stemWordPorter : string → string) (ii : InvertedIndex)
    (docIDSet : gset Z) :
  (∀ singleExpression,
     Py.contains "NOT" singleExpression = true →
     ∃ before after,
       singleExpression = before +:+ "NOT" +:+ after ∧
       (∀ u v, before = u +:+ v → v ≠ EmptyString →
               Py.startswith "NOT" (v +:+ "NOT" +:+ after) = false) ∧
       simpleExpressionHandler toLowerCase stemWordPorter ii docIDSet
         singleExpression =
       (termDocumentSet <~
          documentSetOf toLowerCase stemWordPorter ii (Py.strip after);
        Ok (docIDSet ∖ termDocumentSet))) ∧
  (∀ A B, term_like A → term_like B →
     complexExpressionHandler toLowerCase stemWordPorter ii docIDSet
       (A +:+ " NOT " +:+ B) =
     Ok (docIDSet ∖
         getTermDocumentSet ii (preprocessedTerm toLowerCase stemWordPorter B))).
Proof.
  split.
  - intros e He. destruct (partition_contains _ _ He) as (b & a & Hpart).
    exists b, a. destruct (partition_first _ _ _ _ Hpart) as [Heq Hfirst].
    repeat split; try done. by eapply simple_NOT.
  - intros A B HA HB. by apply evaluate_NOT.
Qed.

Lemma not_complements_text_after_first_occurrence_witness :
  (∃ before after,
     "KNOTcat" = before +:+ "NOT" +:+ after ∧
     (∀ u v, before = u +:+ v → v ≠ EmptyString →
             Py.startswith "NOT" (v +:+ "NOT" +:+ after) = false) ∧
     Sample.simple "KNOTcat" =
     (termDocumentSet <~
        documentSetOf Sample.toLowerCase Sample.stemWordPorter Sample.index
          (Py.strip after);
      Ok (Sample.docIDSet ∖ termDocumentSet))) ∧
  Sample.evaluate "cat NOT dog" =
  Ok (Sample.docIDSet ∖
      getTermDocumentSet Sample.index
        (preprocessedTerm Sample.toLowerCase Sample.stemWordPorter "dog")).
Proof.
  split.
  - apply (proj1 (not_complements_text_after_first_occurrence
             Sample.toLowerCase Sample.stemWordPorter Sample.index
             Sample.docIDSet) "KNOTcat").
    reflexivity.
  - apply (proj2 (not_complements_text_after_first_occurrence
             Sample.toLowerCase Sample.stemWordPorter Sample.index
             Sample.docIDSet) "cat" "dog"); split; reflexivity.
Defined.

Example not_inside_a_word :
  Sample.simple "KNOTcat" = Ok {[ 3 ]} ∧ Sample.evaluate "dog NOT cat" = Ok {[ 3 ]}.
Proof. split; vm_compute; reflexivity. Qed.

(** ** Phrases *)

Lemma append_empty_r (s : string) : s +:+ EmptyString = s.
Proof. induction s as [|c s IH]; [done|]. by rewrite append_cons, IH. Qed.

Lemma remove_quoted (s : string) :
  Py.remove is_quote (quoted s) = Py.remove is_quote s.
Proof.
  unfold quoted.
  change (Py.remove is_quote (String dquote (s +:+ String dquote EmptyString)))
    with (Py.remove is_quote (s +:+ String dquote EmptyString)).
  rewrite remove_app.
  change (Py.remove is_quote (String dquote EmptyString)) with EmptyString.
  apply append_empty_r.
Qed.

(** The comma form of a word holds no comma. *)
Lemma comma_form_word (w : string) :
  word w → lacks "," (Py.replace " " "," (Py.remove is_quote w)) = true.
Proof.
  unfold word. induction w as [|c w IH]; [done|].
  cbn [all_chars Py.remove]. intros [Hc Hw]%andb_true_iff.
  destruct (is_quote c); [by apply IH|].
  cbn [Py.replace]. unfold lacks. cbn [all_chars]. fold (lacks "," ).
  apply andb_true_iff in Hc as [Hblank Hcomma].
  apply negb_true_iff in Hblank as ->. rewrite Hcomma. by apply IH.
Qed.

Lemma comma_form_phrase (w rest : string) :
  Py.replace " " "," (Py.remove is_quote (w +:+ " " +:+ rest)) =
  Py.replace " " "," (Py.remove is_quote w) +:+ "," +:+
  Py.replace " " "," (Py.remove is_quote rest).
Proof. by rewrite remove_app, replace_app. Qed.

Lemma all_chars_remove P f (s : string) :
  all_chars P s = true → all_chars P (Py.remove f s) = true.
Proof.
  induction s as [|c s IH]; [done|]. cbn [all_chars Py.remove].
  intros [Hc Hs]%andb_true_iff.
  destruct (f c); cbn [all_chars]; rewrite ?Hc; by apply IH.
Qed.

Lemma replace_lacks x y (s : string) :
  lacks x s = true → Py.replace x y s = s.
Proof.
  induction s as [|c s IH]; [done|]. unfold lacks. cbn [all_chars Py.replace].
  intros [Hc Hs]%andb_true_iff. apply negb_true_iff in Hc as ->.
  by rewrite (IH Hs).
Qed.

Lemma remove_all_kept f (s : string) :
  all_chars (λ c, negb (f c)) s = true → Py.remove f s = s.
Proof.
  induction s as [|c s IH]; [done|]. cbn [all_chars Py.remove].
  intros [Hc Hs]%andb_true_iff. apply negb_true_iff in Hc as ->.
  by rewrite (IH Hs).
Qed.

(** C9: in a quoted phrase of three words or more only the first two
    words are matched: the comma form of the phrase splits into the first
    two words (without quotes) followed by the pieces of the rest, the
    handler answers with the proximity match of those two words at
    distance 1 with [isPhrase = true], and so does the phrase of the
    first two words alone; the remaining words are ignored. *)
Theorem phrase_matches_first_two_words_only
    (toLowerCase stemWordPorter : string → string) (ii : InvertedIndex)
    (w1 w2 rest : string) :
  word w1 → word w2 →
  Py.split ","
    (Py.replace " " ","
       (Py.remove is_quote (quoted (w1 +:+ " " +:+ w2 +:+ " " +:+ rest)))) =
    Py.remove is_quote w1 :: Py.remove is_quote w2 ::
      Py.split "," (Py.replace " " "," (Py.remove is_quote rest)) ∧
  Py.split ","
    (Py.replace " " "," (Py.remove is_quote (quoted (w1 +:+ " " +:+ w2)))) =
    [Py.remove is_quote w1; Py.remove is_quote w2] ∧
  phraseHandler toLowerCase stemWordPorter ii
    (quoted (w1 +:+ " " +:+ w2 +:+ " " +:+ rest)) =
  proximityHandler toLowerCase stemWordPorter ii
    (Py.remove is_quote w1 +:+ "," +:+ Py.remove is_quote w2) 1 true ∧
  phraseHandler toLowerCase stemWordPorter ii (quoted (w1 +:+ " " +:+ w2)) =
  proximityHandler toLowerCase stemWordPorter ii
    (Py.remove is_quote w1 +:+ "," +:+ Py.remove is_quote w2) 1 true ∧
  phraseHandler toLowerCase stemWordPorter ii
    (quoted (w1 +:+ " " +:+ w2 +:+ " " +:+ rest)) =
  phraseHandler toLowerCase stemWordPorter ii (quoted (w1 +:+ " " +:+ w2)) ∧
  (lacks dquote w1 = true → lacks dquote w2 = true →
   phraseHandler toLowerCase stemWordPorter ii
     (quoted (w1 +:+ " " +:+ w2 +:+ " " +:+ rest)) =
   proximityHandler toLowerCase stemWordPorter ii (w1 +:+ "," +:+ w2) 1 true).
Proof.
  intros Hw1 Hw2.
  pose proof (comma_form_word w1 Hw1) as H1.
  pose proof (comma_form_word w2 Hw2) as H2.
  assert (∀ w, word w →
            Py.replace " " "," (Py.remove is_quote w) = Py.remove is_quote w)
    as Hform.
  { intros w Hw. apply replace_lacks, all_chars_remove.
    eapply all_chars_impl; [|exact Hw].
    intros c. unfold word_char. by intros [? _]%andb_true_iff. }
  rewrite (Hform w1 Hw1) in H1. rewrite (Hform w2 Hw2) in H2.
  assert (Py.split ","
      (Py.replace " " ","
         (Py.remove is_quote (quoted (w1 +:+ " " +:+ w2 +:+ " " +:+ rest)))) =
      Py.remove is_quote w1 :: Py.remove is_quote w2 ::
      Py.split "," (Py.replace " " "," (Py.remove is_quote rest))) as Hlong.
  { rewrite remove_quoted, !comma_form_phrase, (Hform w1 Hw1), (Hform w2 Hw2).
    by rewrite (split_app "," EmptyString _ _ H1),
      (split_app "," EmptyString _ _ H2). }
  assert (Py.split ","
      (Py.replace " " "," (Py.remove is_quote (quoted (w1 +:+ " " +:+ w2)))) =
      [Py.remove is_quote w1; Py.remove is_quote w2]) as Hshort.
  { rewrite remove_quoted, comma_form_phrase, (Hform w1 Hw1), (Hform w2 Hw2).
    by rewrite (split_app "," EmptyString _ _ H1),
      (split_lacks "," EmptyString _ H2). }
  assert (Py.split "," (Py.remove is_quote w1 +:+ "," +:+ Py.remove is_quote w2)
          = [Py.remove is_quote w1; Py.remove is_quote w2]) as Hpair.
  { by rewrite (split_app "," EmptyString _ _ H1),
      (split_lacks "," EmptyString _ H2). }
  assert (phraseHandler toLowerCase stemWordPorter ii
            (quoted (w1 +:+ " " +:+ w2 +:+ " " +:+ rest)) =
          proximityHandler toLowerCase stemWordPorter ii
            (Py.remove is_quote w1 +:+ "," +:+ Py.remove is_quote w2) 1 true)
    as Hlong_run.
  { unfold phraseHandler, proximityHandler. by rewrite Hlong, Hpair. }
  assert (phraseHandler toLowerCase stemWordPorter ii
            (quoted (w1 +:+ " " +:+ w2)) =
          proximityHandler toLowerCase stemWordPorter ii
            (Py.remove is_quote w1 +:+ "," +:+ Py.remove is_quote w2) 1 true)
    as Hshort_run.
  { unfold phraseHandler, proximityHandler. by rewrite Hshort, Hpair. }
  split; [done|]. split; [done|]. split; [done|]. split; [done|].
  split; [by rewrite Hlong_run, Hshort_run|].
  intros Hq1 Hq2. rewrite Hlong_run.
  by rewrite (remove_all_kept is_quote w1 Hq1), (remove_all_kept is_quote w2 Hq2).
Qed.

Lemma phrase_matches_first_two_words_only_witness :
  Py.split ","
    (Py.replace " " ","
       (Py.remove is_quote
          (quoted ("cat" +:+ " " +:+ "dog" +:+ " " +:+ "bird and fish")))) =
    Py.remove is_quote "cat" :: Py.remove is_quote "dog" ::
      Py.split "," (Py.replace " " "," (Py.remove is_quote "bird and fish")) ∧
  Py.split ","
    (Py.replace " " "," (Py.remove is_quote (quoted ("cat" +:+ " " +:+ "dog")))) =
    [Py.remove is_quote "cat"; Py.remove is_quote "dog"] ∧
  Sample.phrase (quoted ("cat" +:+ " " +:+ "dog" +:+ " " +:+ "bird and fish")) =
  Sample.proximity
    (Py.remove is_quote "cat" +:+ "," +:+ Py.remove is_quote "dog") 1 true ∧
  Sample.phrase (quoted ("cat" +:+ " " +:+ "dog")) =
  Sample.proximity
    (Py.remove is_quote "cat" +:+ "," +:+ Py.remove is_quote "dog") 1 true ∧
  Sample.phrase (quoted ("cat" +:+ " " +:+ "dog" +:+ " " +:+ "bird and fish")) =
  Sample.phrase (quoted ("cat" +:+ " " +:+ "dog")) ∧
  (lacks dquote "cat" = true → lacks dquote "dog" = true →
   Sample.phrase (quoted ("cat" +:+ " " +:+ "dog" +:+ " " +:+ "bird and fish")) =
   Sample.proximity ("cat" +:+ "," +:+ "dog") 1 true).
Proof.
  apply (phrase_matches_first_two_words_only Sample.toLowerCase
           Sample.stemWordPorter Sample.index "cat" "dog" "bird and fish");
    reflexivity.
Defined.

Example phrase_of_three_words :
  Sample.phrase (quoted "cat dog bird") = Ok {[ 1 ]} ∧
  Sample.phrase (quoted "cat dog") = Ok {[ 1 ]}.
Proof. split; vm_compute; reflexivity. Qed.

(** ** Ranking *)

Section RankingFacts.
Context (toLowerCase stemWordPorter : string → string).
Context (tokenize : string → list string) (isNotAStopword : string → bool).
Context (ii : InvertedIndex) (docIDSet : gset Z).

Local Abbreviation score := (partialScore docIDSet).
Local Abbreviation scoreDoc := (scoreDocument docIDSet).
Local Abbreviation scoreTm :=
  (scoreTerm stemWordPorter isNotAStopword ii docIDSet).

Lemma scoreDocument_other n (scores : gmap Z R) item doc :
  item.1 ≠ doc → scoreDoc n scores item !! doc = scores !! doc.
Proof.
  intros Hne. unfold scoreDocument.
  destruct (scores !! item.1); by rewrite lookup_insert_ne.
Qed.

Lemma scoreDocument_same n (scores : gmap Z R) item :
  scoreDoc n scores item !! item.1 =
  Some (match scores !! item.1 with
        | None => score item.2 n
        | Some v => (v + score item.2 n)%R
        end).
Proof.
  unfold scoreDocument. destruct (scores !! item.1); by rewrite lookup_insert_eq.
Qed.

Lemma foldl_scoreDocument_other n items (scores : gmap Z R) doc :
  doc ∉ items.*1 → foldl (scoreDoc n) scores items !! doc = scores !! doc.
Proof.
  revert scores. induction items as [|item items IH]; intros scores Hdoc; [done|].
  simpl. rewrite fmap_cons, not_elem_of_cons in Hdoc. destruct Hdoc as [Hne Hdoc].
  rewrite IH by done. by apply scoreDocument_other.
Qed.

Lemma foldl_scoreDocument_hit n items (scores : gmap Z R) doc positions :
  NoDup items.*1 → (doc, positions) ∈ items →
  foldl (scoreDoc n) scores items !! doc =
  Some (match scores !! doc with
        | None => score positions n
        | Some v => (v + score positions n)%R
        end).
Proof.
  revert scores. induction items as [|item items IH]; intros scores Hnd Hin.
  - by apply elem_of_nil in Hin.
  - rewrite fmap_cons in Hnd. apply NoDup_cons in Hnd as [Hfresh Hnd].
    simpl. apply elem_of_cons in Hin as [<-|Hin].
    + rewrite foldl_scoreDocument_other by done. apply scoreDocument_same.
    + assert (item.1 ≠ doc) as Hne.
      { intros <-. apply Hfresh. apply list_elem_of_fmap.
        by exists (item.1, positions). }
      rewrite IH by done. by rewrite scoreDocument_other.
  Qed.

(** What one query token does to the score of a document. *)
Lemma scoreTerm_lookup (scores : gmap Z R) term doc :
  scoreTm scores term !! doc =
  if (0 <? len (list_ascii_of_string term)) && isNotAStopword term then
    match getTermDocumentDictionary ii (stemWordPorter term) !! doc with
    | Some positions =>
        let n := Z.of_nat (size (getTermDocumentDictionary ii (stemWordPorter term))) in
        Some (match scores !! doc with
              | None => score positions n
              | Some v => (v + score positions n)%R
              end)
    | None => scores !! doc
    end
  else scores !! doc.
Proof.
  unfold scoreTerm. destruct (_ && _); [|done].
  set (d := getTermDocumentDictionary ii (stemWordPorter term)).
  destruct (Z.eqb_spec (Z.of_nat (size d)) 0) as [Hz|Hnz].
  - assert (d = ∅) as -> by (apply map_size_empty_iff; lia).
    by rewrite lookup_empty.
  - destruct (d !! doc) as [positions|] eqn:Hd.
    + apply foldl_scoreDocument_hit; [apply NoDup_fst_map_to_list|].
      by apply elem_of_map_to_list.
    + apply foldl_scoreDocument_other. intros Hin.
      apply list_elem_of_fmap in Hin as ([d' ps] & -> & Hin).
      apply elem_of_map_to_list in Hin. simpl in Hd. congruence.
Qed.

(** The score of a document after the tokens of a query. *)
Lemma foldl_scoreTerm_lookup tokens (scores : gmap Z R) doc :
  foldl scoreTm scores tokens !! doc =
  foldl accumulate (scores !! doc)
    (omap (tokenContribution stemWordPorter isNotAStopword ii docIDSet doc)
       tokens).
Proof.
  revert scores. induction tokens as [|term tokens IH]; intros scores; [done|].
  cbn [foldl omap list_omap]. rewrite IH, scoreTerm_lookup.
  unfold tokenContribution at 2.
  destruct (_ && _); [|done].
  by destruct (getTermDocumentDictionary ii (stemWordPorter term) !! doc).
Qed.

Lemma calculateTFIDF_lookup query doc :
  calculateTFIDF toLowerCase stemWordPorter tokenize isNotAStopword ii
    docIDSet query !! doc =
  foldl accumulate None
    (omap (tokenContribution stemWordPorter isNotAStopword ii docIDSet doc)
       (tokenize (toLowerCase query))).
Proof.
  unfold calculateTFIDF. by rewrite foldl_scoreTerm_lookup, lookup_empty.
Qed.

Lemma accumulate_sum v cs :
  foldl accumulate (Some v) cs = Some (v + sumR cs)%R.
Proof.
  revert v. induction cs as [|c cs IH]; intros v.
  - cbn [foldl]. unfold sumR. cbn [foldr]. f_equal. lra.
  - cbn [foldl]. change (accumulate (Some v) c) with (Some (v + c)%R).
    rewrite IH. unfold sumR. cbn [foldr]. f_equal. lra.
Qed.

(** A document is a key of the ranking exactly when some token of the
    query contributes to it, and its score is then the sum of the
    contributions. *)
Lemma calculateTFIDF_score query doc :
  calculateTFIDF toLowerCase stemWordPorter tokenize isNotAStopword ii
    docIDSet query !! doc =
  match omap (tokenContribution stemWordPorter isNotAStopword ii docIDSet doc)
          (tokenize (toLowerCase query)) with
  | [] => None
  | cs => Some (sumR cs)
  end.
Proof.
  rewrite calculateTFIDF_lookup.
  destruct (omap _ _) as [|c cs]; [done|].
  cbn [foldl]. change (accumulate None c) with (Some c).
  rewrite accumulate_sum. reflexivity.
Qed.

(** A token without postings leaves the scores as they are. *)
Lemma scoreTerm_unknown (scores : gmap Z R) term :
  getTermDocumentDictionary ii (stemWordPorter term) = ∅ →
  scoreTm scores term = scores.
Proof.
  intros Hd. unfold scoreTerm. rewrite Hd, map_size_empty. simpl.
  by destruct (_ && _).
Qed.
End RankingFacts.

Lemma np_log10_1 : np_log10 1 = 0%R.
Proof. unfold np_log10. rewrite ln_1. lra. Qed.

Lemma np_log10_pos x : (1 < x)%R → (0 < np_log10 x)%R.
Proof.
  intros Hx. unfold np_log10.
  assert (0 < ln x)%R by (rewrite <- ln_1; apply ln_increasing; lra).
  assert (0 < ln 10)%R by (rewrite <- ln_1; apply ln_increasing; lra).
  by apply Rdiv_lt_0_compat.
Qed.

(** ** Result files *)

Lemma writeEntries_take {A} (line : A → ResultLine) counter entries :
  0 ≤ counter ≤ 999 →
  writeEntries line counter entries =
  line <$> take (Z.to_nat (999 - counter)) entries.
Proof.
  revert counter. induction entries as [|entry rest IH]; intros counter Hc.
  - by rewrite take_nil.
  - simpl. destruct (Z.eqb_spec counter 999) as [->|Hne]; [done|].
    rewrite IH by lia.
    replace (Z.to_nat (999 - counter)) with (S (Z.to_nat (999 - (counter + 1))))
      by lia.
    done.
Qed.

Lemma writeEntries_length {A} (line : A → ResultLine) entries :
  length (writeEntries line 0 entries) = (length entries `min` 999)%nat.
Proof.
  rewrite writeEntries_take by lia. rewrite length_fmap, length_take.
  change (Z.to_nat (999 - 0)) with 999%nat. lia.
Qed.

Lemma insertByScore_length entry l :
  length (insertByScore entry l) = S (length l).
Proof.
  induction l as [|y l IH]; [done|]. simpl.
  destruct (Rlt_dec _ _); simpl; by rewrite ?IH.
Qed.

Lemma sortedByScore_length items :
  length (sortedByScore items) = length items.
Proof.
  induction items as [|x items IH]; [done|]. simpl.
  by rewrite insertByScore_length, IH.
Qed.

(** Number of lines written for one query with a non-empty boolean result. *)
Lemma writeBooleanResultsToFile_length k (v : gset Z) :
  size v ≠ 0%nat →
  length (writeBooleanResultsToFile [(k, v)]) = (size v `min` 999)%nat.
Proof.
  intros Hv. unfold writeBooleanResultsToFile. cbn [flat_map fst snd].
  rewrite app_nil_r, length_app, writeEntries_length, merge_sort_Permutation.
  unfold len. change (length (elements v)) with (size v).
  by destruct (Z.eqb_spec (Z.of_nat (size v)) 0) as [?|_]; [lia|].
Qed.

(** Number of lines written for one query with a non-empty ranking. *)
Lemma writeTFIDFResultsToFile_length k (v : gmap Z R) :
  size v ≠ 0%nat →
  length (writeTFIDFResultsToFile [(k, v)]) = (size v `min` 999)%nat.
Proof.
  intros Hv. unfold writeTFIDFResultsToFile. cbn [flat_map fst snd].
  rewrite app_nil_r, length_app, writeEntries_length, sortedByScore_length,
    length_map_to_list.
  by destruct (Z.eqb_spec (Z.of_nat (size v)) 0) as [?|_]; [lia|].
Qed.

(** ** Properties of unknown terms, ranking and result files *)

(** C7, amended: a term that holds neither the literal NOT nor a double
    quote and whose preprocessed form has no postings evaluates to the
    empty set, without an exception; and a query token whose stem has no
    postings is skipped by the ranking, which returns the scores of the
    query without that token. *)
Theorem unknown_plain_term_is_empty_and_skipped
    (toLowerCase stemWordPorter : string → string)
    (tokenize : string → list string) (isNotAStopword : string → bool)
    (ii : InvertedIndex) (docIDSet : gset Z) :
  (∀ t, Py.contains "NOT" t = false →
        Py.contains (String dquote EmptyString) t = false →
        getTermDocumentDictionary ii
          (preprocessedTerm toLowerCase stemWordPorter t) = ∅ →
        simpleExpressionHandler toLowerCase stemWordPorter ii docIDSet t = Ok ∅) ∧
  (∀ t before after query query',
        getTermDocumentDictionary ii (stemWordPorter t) = ∅ →
        tokenize (toLowerCase query) = before ++ t :: after →
        tokenize (toLowerCase query') = before ++ after →
        calculateTFIDF toLowerCase stemWordPorter tokenize isNotAStopword
          ii docIDSet query =
        calculateTFIDF toLowerCase stemWordPorter tokenize isNotAStopword
          ii docIDSet query').
Proof.
  split.
  - intros t Hnot Hquote Hd. unfold simpleExpressionHandler.
    rewrite Hnot, Hquote. unfold getTermDocumentSet. by rewrite Hd, dom_empty_L.
  - intros t before after query query' Hd Hq Hq'. unfold calculateTFIDF.
    rewrite Hq, Hq', !foldl_app. simpl. by rewrite scoreTerm_unknown.
Qed.

Lemma unknown_plain_term_is_empty_and_skipped_witness :
  Sample.simple "bird" = Ok ∅ ∧ Sample.rank "cat bird dog" = Sample.rank "cat dog".
Proof.
  split.
  - apply (proj1 (unknown_plain_term_is_empty_and_skipped Sample.toLowerCase
             Sample.stemWordPorter Sample.tokenize Sample.isNotAStopword
             Sample.index Sample.docIDSet) "bird"); reflexivity.
  - apply (proj2 (unknown_plain_term_is_empty_and_skipped Sample.toLowerCase
             Sample.stemWordPorter Sample.tokenize Sample.isNotAStopword
             Sample.index Sample.docIDSet) "bird" ["cat"] ["dog"]);
      reflexivity.
Defined.

(** C7 as stated fails on a term that holds the literal NOT: "KNOT" has no
    postings, raw or preprocessed, yet it evaluates to the whole universe
    set. *)
Lemma unknown_term_with_NOT_is_not_empty :
  getTermDocumentDictionary Sample.index "KNOT" = ∅ ∧
  getTermDocumentDictionary Sample.index
    (preprocessedTerm Sample.toLowerCase Sample.stemWordPorter "KNOT") = ∅ ∧
  Sample.simple "KNOT" = Ok {[ 1; 2; 3 ]} ∧
  Sample.simple "KNOT" ≠ Ok ∅.
Proof.
  assert (Sample.simple "KNOT" = Ok {[ 1; 2; 3 ]}) as Hrun
    by (vm_compute; reflexivity).
  repeat split; done.
Qed.

(** C2 at a collection of three documents and a term found in two of
    them: the quotient 3/2 is taken on integers, so the handler scores the
    document 0, where the real quotient of the specification gives
    log10 (3/2), which is positive. *)
Theorem tfidf_quotient_is_integer_division :
  collectionSize Sample.docIDSet = 3 ∧
  getTermDocumentDictionary Sample.index "cat" = {[ 1 := [3]; 2 := [10] ]} ∧
  Sample.rank "cat" !! 1 = Some 0%R ∧
  specPartialScore 3 [3] 2 = np_log10 (3 / 2) ∧
  Rlt 0 (specPartialScore 3 [3] 2).
Proof.
  assert (specPartialScore 3 [3] 2 = np_log10 (3 / 2)) as Hspec.
  { unfold specPartialScore. change (IZR (len [3])) with 1%R.
    rewrite np_log10_1. lra. }
  split; [reflexivity|]. split; [reflexivity|]. split; [|split; [done|]].
  - unfold Sample.rank, calculateTFIDF.
    change (Sample.tokenize (Sample.toLowerCase "cat")) with ["cat"].
    cbn [foldl]. rewrite scoreTerm_lookup.
    change (Sample.stemWordPorter "cat") with "cat".
    replace ((0 <? len (list_ascii_of_string "cat")) && Sample.isNotAStopword "cat")
      with true by reflexivity.
    replace (getTermDocumentDictionary Sample.index "cat" !! 1)
      with (Some [3]) by reflexivity.
    rewrite lookup_empty. cbv zeta. f_equal. unfold partialScore.
    replace (collectionSize Sample.docIDSet /
             Z.of_nat (size (getTermDocumentDictionary Sample.index "cat")))
      with 1 by reflexivity.
    rewrite np_log10_1. lra.
  - rewrite Hspec. apply np_log10_pos. lra.
Qed.

(** C3 at result sets of one thousand and of one thousand and one
    entries: the writers stop when the counter reaches 999, so 999 lines
    are written in each case, for boolean results and for rankings. *)
Theorem writers_stop_after_999_lines :
  size thousandDocuments = 1000%nat ∧
  length (writeBooleanResultsToFile [(7, thousandDocuments)]) = 999%nat ∧
  size thousandAndOneDocuments = 1001%nat ∧
  length (writeBooleanResultsToFile [(7, thousandAndOneDocuments)]) = 999%nat ∧
  size thousandScores = 1000%nat ∧
  length (writeTFIDFResultsToFile [(7, thousandScores)]) = 999%nat ∧
  size thousandAndOneScores = 1001%nat ∧
  length (writeTFIDFResultsToFile [(7, thousandAndOneScores)]) = 999%nat.
Proof.
  assert (size thousandDocuments = 1000%nat) as H1.
  { unfold thousandDocuments.
    rewrite size_list_to_set by apply NoDup_seqZ. by rewrite length_seqZ. }
  assert (size thousandAndOneDocuments = 1001%nat) as H2.
  { unfold thousandAndOneDocuments.
    rewrite size_list_to_set by apply NoDup_seqZ. by rewrite length_seqZ. }
  assert (∀ n, size (list_to_map ((λ doc, (doc, 0%R)) <$> seqZ 1 n) : gmap Z R)
               = Z.to_nat n) as Hscores.
  { intros n. rewrite map_size_list_to_map.
    - by rewrite length_fmap, length_seqZ.
    - rewrite <- list_fmap_compose.
      change (NoDup (Datatypes.id <$> seqZ 1 n)).
      rewrite list_fmap_id. apply NoDup_seqZ. }
  assert (size thousandScores = 1000%nat) as H3 by exact (Hscores 1000).
  assert (size thousandAndOneScores = 1001%nat) as H4 by exact (Hscores 1001).
  split; [exact H1|]. split.
  { rewrite writeBooleanResultsToFile_length; rewrite H1; [reflexivity|lia]. }
  split; [exact H2|]. split.
  { rewrite writeBooleanResultsToFile_length; rewrite H2; [reflexivity|lia]. }
  split; [exact H3|]. split.
  { rewrite writeTFIDFResultsToFile_length; rewrite H3; [reflexivity|lia]. }
  split; [exact H4|].
  rewrite writeTFIDFResultsToFile_length; rewrite H4; [reflexivity|lia].
Qed.


(** ** Further properties of the proximity matcher *)

Section ScanTotal.
Context (isPhrase : bool) (distance : Z) (dict1 dict2 : gmap Z (list Z)).

Lemma foldM_scan_total docs matching :
  (∀ doc, doc ∈ docs →
     ∃ l1 l2, candidate dict1 dict2 doc l1 l2 ∧ l1 ≠ [] ∧ l2 ≠ []) →
  ∃ matching',
    foldM (scanDocument isPhrase distance dict1 dict2) matching docs
      = Ok matching' ∧
    ∀ x, x ∈ matching' → x ∈ matching ∨ x ∈ docs.
Proof.
  revert matching. induction docs as [|doc docs IH]; intros matching Hdocs.
  - exists matching. split; [done|]. auto.
  - destruct (Hdocs doc) as (l1 & l2 & Hc & H1 & H2); [by left|].
    destruct (scanDocument_total isPhrase distance dict1 dict2 matching doc
                l1 l2 Hc H1 H2) as (m1 & Hrun & Hm1).
    destruct (IH m1) as (m' & Hrun' & Hsub).
    { intros d Hd. apply Hdocs. by right. }
    exists m'. cbn [foldM]. rewrite Hrun. cbn [bind]. split; [done|].
    intros x Hx. destruct (Hsub x Hx) as [Hx1|Hx1].
    + destruct Hm1 as [->| ->]; [by left|].
      apply elem_of_app in Hx1 as [?|Hx1]; [by left|].
      apply list_elem_of_singleton in Hx1 as ->. right; by left.
    + right. by right.
Qed.
End ScanTotal.

Section ProximitySets.
Context (toLowerCase stemWordPorter : string → string) (ii : InvertedIndex).

Local Abbreviation proximity := (proximityHandler toLowerCase stemWordPorter ii).
Local Abbreviation postings := (postingsOf toLowerCase stemWordPorter ii).

(** The handler returns whenever the postings list no empty position list,
    and only candidates are returned. *)
Lemma proximityHandler_total q distance isPhrase term1 term2 rest :
  Py.split "," q = term1 :: term2 :: rest →
  nonempty_postings (postings term1) → nonempty_postings (postings term2) →
  ∃ result, proximity q distance isPhrase = Ok result ∧
    result ⊆ dom (postings term1) ∩ dom (postings term2).
Proof.
  intros Hsplit Hn1 Hn2.
  unfold proximityHandler. rewrite Hsplit. cbn [getitem lookup list_lookup bind].
  fold (postings term1) (postings term2).
  destruct (foldM_scan_total isPhrase distance (postings term1) (postings term2)
              (merge_sort Z.le
                 (elements (dom (postings term1) ∩ dom (postings term2)))) [])
    as (matching & -> & Hsub).
  { apply candidates_nonempty; try done.
    intros d. by rewrite elem_of_sorted_candidates. }
  cbn [bind]. eexists; split; [done|].
  intros x Hx%elem_of_list_to_set. destruct (Hsub x Hx) as [Hnil|Hin].
  - by apply elem_of_nil in Hnil.
  - by apply elem_of_sorted_candidates in Hin.
Qed.

(** On an index with non-empty ascending position lists the result is the
    set of candidates with a pair of positions that satisfies the match
    condition. *)
Lemma proximityHandler_members q distance isPhrase term1 term2 rest :
  Py.split "," q = term1 :: term2 :: rest →
  nonempty_postings (postings term1) → nonempty_postings (postings term2) →
  ascending_postings (postings term1) → ascending_postings (postings term2) →
  ∃ result, proximity q distance isPhrase = Ok result ∧
    ∀ doc, doc ∈ result ↔
      ∃ l1 l2, candidate (postings term1) (postings term2) doc l1 l2 ∧
               somePairMatches isPhrase distance l1 l2.
Proof.
  intros Hsplit Hn1 Hn2 Ha1 Ha2.
  destruct (proximityHandler_total q distance isPhrase term1 term2 rest)
    as (result & Hrun & Hsub); try done.
  exists result. split; [done|]. intros doc. split.
  - intros Hdoc. pose proof (Hsub doc Hdoc) as Hcand.
    apply elem_of_intersection in Hcand as [[l1 Hl1]%elem_of_dom [l2 Hl2]%elem_of_dom].
    exists l1, l2. split; [done|].
    destruct (proximityHandler_spec toLowerCase stemWordPorter ii q distance
                isPhrase term1 term2 rest doc l1 l2)
      as (result' & Hrun' & Hiff); try done.
    { by apply (Ha1 doc). } { by apply (Ha2 doc). }
    rewrite Hrun in Hrun'. simplify_eq. by apply Hiff.
  - intros (l1 & l2 & [Hl1 Hl2] & Hpair).
    destruct (proximityHandler_spec toLowerCase stemWordPorter ii q distance
                isPhrase term1 term2 rest doc l1 l2)
      as (result' & Hrun' & Hiff); try done.
    { by apply (Ha1 doc). } { by apply (Ha2 doc). }
    rewrite Hrun in Hrun'. simplify_eq. by apply Hiff.
Qed.
End ProximitySets.

(** X1: when no position list of the two terms is empty, the proximity
    handler returns without an exception, for either value of [isPhrase]
    and any distance, and every returned document contains both terms. *)
Theorem proximity_returns_only_candidates
    (toLowerCase stemWordPorter : string → string) (ii : InvertedIndex)
    (q : string) (distance : Z) (isPhrase : bool)
    (term1 term2 : string) (rest : list string) :
  Py.split "," q = term1 :: term2 :: rest →
  nonempty_postings (postingsOf toLowerCase stemWordPorter ii term1) →
  nonempty_postings (postingsOf toLowerCase stemWordPorter ii term2) →
  ∃ result,
    proximityHandler toLowerCase stemWordPorter ii q distance isPhrase
      = Ok result ∧
    result ⊆ dom (postingsOf toLowerCase stemWordPorter ii term1) ∩
             dom (postingsOf toLowerCase stemWordPorter ii term2).
Proof. apply proximityHandler_total. Qed.

Lemma proximity_returns_only_candidates_witness :
  ∃ result,
    proximityHandler Sample.toLowerCase Sample.stemWordPorter Sample.index
      "cat, dog" 5 true = Ok result ∧
    result ⊆ dom (postingsOf Sample.toLowerCase Sample.stemWordPorter
                    Sample.index "cat") ∩
             dom (postingsOf Sample.toLowerCase Sample.stemWordPorter
                    Sample.index " dog").
Proof.
  apply (proximity_returns_only_candidates Sample.toLowerCase
           Sample.stemWordPorter Sample.index "cat, dog" 5 true
           "cat" " dog" []).
  - vm_compute. reflexivity.
  - by_evaluation.
  - by_evaluation.
Defined.

(** X2: on postings with non-empty ascending position lists the result of
    the proximity handler is exactly the set of documents that contain
    both terms and have a position of term1 and a position of term2 that
    satisfy the match condition. *)
Theorem proximity_returns_the_matching_candidates
    (toLowerCase stemWordPorter : string → string) (ii : InvertedIndex)
    (q : string) (distance : Z) (isPhrase : bool)
    (term1 term2 : string) (rest : list string) :
  Py.split "," q = term1 :: term2 :: rest →
  nonempty_postings (postingsOf toLowerCase stemWordPorter ii term1) →
  nonempty_postings (postingsOf toLowerCase stemWordPorter ii term2) →
  ascending_postings (postingsOf toLowerCase stemWordPorter ii term1) →
  ascending_postings (postingsOf toLowerCase stemWordPorter ii term2) →
  ∃ result,
    proximityHandler toLowerCase stemWordPorter ii q distance isPhrase
      = Ok result ∧
    ∀ doc, doc ∈ result ↔
      ∃ l1 l2,
        candidate (postingsOf toLowerCase stemWordPorter ii term1)
                  (postingsOf toLowerCase stemWordPorter ii term2) doc l1 l2 ∧
        somePairMatches isPhrase distance l1 l2.
Proof. apply proximityHandler_members. Qed.

Lemma proximity_returns_the_matching_candidates_witness :
  ∃ result,
    proximityHandler Sample.toLowerCase Sample.stemWordPorter Sample.index
      "dog,cat" 2 false = Ok result ∧
    ∀ doc, doc ∈ result ↔
      ∃ l1 l2,
        candidate (postingsOf Sample.toLowerCase Sample.stemWordPorter
                     Sample.index "dog")
                  (postingsOf Sample.toLowerCase Sample.stemWordPorter
                     Sample.index "cat") doc l1 l2 ∧
        somePairMatches false 2 l1 l2.
Proof.
  apply (proximity_returns_the_matching_candidates Sample.toLowerCase
           Sample.stemWordPorter Sample.index "dog,cat" 2 false
           "dog" "cat" []).
  - vm_compute. reflexivity.
  - by_evaluation.
  - by_evaluation.
  - by_evaluation.
  - by_evaluation.
Defined.

(** X3: a proximity query ([isPhrase = false]) does not depend on the
    order of its two terms: on postings with non-empty ascending position
    lists, swapping the terms gives the same set. *)
Theorem proximity_ignores_term_order
    (toLowerCase stemWordPorter : string → string) (ii : InvertedIndex)
    (q q' : string) (distance : Z)
    (term1 term2 : string) (rest rest' : list string) :
  Py.split "," q = term1 :: term2 :: rest →
  Py.split "," q' = term2 :: term1 :: rest' →
  nonempty_postings (postingsOf toLowerCase stemWordPorter ii term1) →
  nonempty_postings (postingsOf toLowerCase stemWordPorter ii term2) →
  ascending_postings (postingsOf toLowerCase stemWordPorter ii term1) →
  ascending_postings (postingsOf toLowerCase stemWordPorter ii term2) →
  ∃ result,
    proximityHandler toLowerCase stemWordPorter ii q distance false
      = Ok result ∧
    proximityHandler toLowerCase stemWordPorter ii q' distance false
      = Ok result.
Proof.
  intros Hq Hq' Hn1 Hn2 Ha1 Ha2.
  destruct (proximityHandler_members toLowerCase stemWordPorter ii q distance
              false term1 term2 rest) as (r & Hr & Hmem); try done.
  destruct (proximityHandler_members toLowerCase stemWordPorter ii q' distance
              false term2 term1 rest') as (r' & Hr' & Hmem'); try done.
  exists r. split; [done|]. rewrite Hr'. f_equal. apply set_eq. intros doc.
  rewrite Hmem, Hmem'. split.
  - intros (l1 & l2 & [H1 H2] & a & b & Ha & Hb & Hab & _).
    exists l2, l1. split; [by split|]. exists b, a.
    repeat split; try done. lia.
  - intros (l2 & l1 & [H2 H1] & b & a & Hb & Ha & Hab & _).
    exists l1, l2. split; [by split|]. exists a, b.
    repeat split; try done. lia.
Qed.

Lemma proximity_ignores_term_order_witness :
  ∃ result,
    proximityHandler Sample.toLowerCase Sample.stemWordPorter Sample.index
      "cat,dog" 1 false = Ok result ∧
    proximityHandler Sample.toLowerCase Sample.stemWordPorter Sample.index
      "dog,cat" 1 false = Ok result.
Proof.
  apply (proximity_ignores_term_order Sample.toLowerCase
           Sample.stemWordPorter Sample.index "cat,dog" "dog,cat" 1
           "cat" "dog" [] []).
  - vm_compute. reflexivity.
  - vm_compute. reflexivity.
  - by_evaluation.
  - by_evaluation.
  - by_evaluation.
  - by_evaluation.
Defined.

(** X4: on postings with non-empty ascending position lists, a larger
    distance never loses a document, and a phrase match ([isPhrase = true])
    returns a subset of the proximity match at the same distance. *)
Theorem proximity_grows_with_distance_and_contains_phrase
    (toLowerCase stemWordPorter : string → string) (ii : InvertedIndex)
    (q : string) (distance distance' : Z) (isPhrase : bool)
    (term1 term2 : string) (rest : list string) :
  Py.split "," q = term1 :: term2 :: rest →
  nonempty_postings (postingsOf toLowerCase stemWordPorter ii term1) →
  nonempty_postings (postingsOf toLowerCase stemWordPorter ii term2) →
  ascending_postings (postingsOf toLowerCase stemWordPorter ii term1) →
  ascending_postings (postingsOf toLowerCase stemWordPorter ii term2) →
  distance ≤ distance' →
  ∃ narrow wide unordered,
    proximityHandler toLowerCase stemWordPorter ii q distance isPhrase
      = Ok narrow ∧
    proximityHandler toLowerCase stemWordPorter ii q distance' isPhrase
      = Ok wide ∧
    proximityHandler toLowerCase stemWordPorter ii q distance false
      = Ok unordered ∧
    narrow ⊆ wide ∧ narrow ⊆ unordered.
Proof.
  intros Hq Hn1 Hn2 Ha1 Ha2 Hd.
  destruct (proximityHandler_members toLowerCase stemWordPorter ii q distance
              isPhrase term1 term2 rest) as (r & Hr & Hmem); try done.
  destruct (proximityHandler_members toLowerCase stemWordPorter ii q distance'
              isPhrase term1 term2 rest) as (r' & Hr' & Hmem'); try done.
  destruct (proximityHandler_members toLowerCase stemWordPorter ii q distance
              false term1 term2 rest) as (r'' & Hr'' & Hmem''); try done.
  exists r, r', r''. repeat split; try done.
  - intros doc. rewrite Hmem, Hmem'.
    intros (l1 & l2 & Hc & a & b & Ha & Hb & Hab & Hord).
    exists l1, l2. split; [done|]. exists a, b. repeat split; try done. lia.
  - intros doc. rewrite Hmem, Hmem''.
    intros (l1 & l2 & Hc & a & b & Ha & Hb & Hab & Hord).
    exists l1, l2. split; [done|]. exists a, b. repeat split; done.
Qed.

Lemma proximity_grows_with_distance_and_contains_phrase_witness :
  ∃ narrow wide unordered,
    proximityHandler Sample.toLowerCase Sample.stemWordPorter Sample.index
      "dog,cat" 1 true = Ok narrow ∧
    proximityHandler Sample.toLowerCase Sample.stemWordPorter Sample.index
      "dog,cat" 7 true = Ok wide ∧
    proximityHandler Sample.toLowerCase Sample.stemWordPorter Sample.index
      "dog,cat" 1 false = Ok unordered ∧
    narrow ⊆ wide ∧ narrow ⊆ unordered.
Proof.
  apply (proximity_grows_with_distance_and_contains_phrase
           Sample.toLowerCase Sample.stemWordPorter Sample.index "dog,cat"
           1 7 true "dog" "cat" []).
  - vm_compute. reflexivity.
  - by_evaluation.
  - by_evaluation.
  - by_evaluation.
  - by_evaluation.
  - lia.
Defined.

(** X5: when one of the two terms has no postings the proximity handler
    returns the empty set, whatever the postings of the other term hold. *)
Theorem proximity_of_unknown_term_is_empty
    (toLowerCase stemWordPorter : string → string) (ii : InvertedIndex)
    (q : string) (distance : Z) (isPhrase : bool)
    (term1 term2 : string) (rest : list string) :
  Py.split "," q = term1 :: term2 :: rest →
  postingsOf toLowerCase stemWordPorter ii term1 = ∅ ∨
  postingsOf toLowerCase stemWordPorter ii term2 = ∅ →
  proximityHandler toLowerCase stemWordPorter ii q distance isPhrase = Ok ∅.
Proof.
  intros Hq Hempty. unfold proximityHandler. rewrite Hq.
  cbn [getitem lookup list_lookup bind].
  fold (postingsOf toLowerCase stemWordPorter ii term1)
       (postingsOf toLowerCase stemWordPorter ii term2).
  assert (dom (postingsOf toLowerCase stemWordPorter ii term1) ∩
          dom (postingsOf toLowerCase stemWordPorter ii term2) = (∅ : gset Z))
    as ->.
  { destruct Hempty as [-> | ->]; rewrite dom_empty_L.
    - apply (left_absorb_L _ _).
    - apply (right_absorb_L _ _). }
  rewrite elements_empty. reflexivity.
Qed.

Lemma proximity_of_unknown_term_is_empty_witness :
  proximityHandler Sample.toLowerCase Sample.stemWordPorter Sample.index
    "cat, bird" 3 false = Ok ∅.
Proof.
  apply (proximity_of_unknown_term_is_empty Sample.toLowerCase
           Sample.stemWordPorter Sample.index "cat, bird" 3 false
           "cat" " bird" []).
  - vm_compute. reflexivity.
  - right. vm_compute. reflexivity.
Defined.

(** ** Further properties of the expression evaluator *)

Lemma rstrip_cons c (s : string) :
  Py.rstrip s ≠ EmptyString → Py.rstrip (String c s) = String c (Py.rstrip s).
Proof. intros Hs. cbn [Py.rstrip]. by destruct (Py.rstrip s). Qed.

(** Trailing whitespace is looked for in the last non-blank part only. *)
Lemma rstrip_app (w s : string) :
  Py.rstrip s ≠ EmptyString → Py.rstrip (w +:+ s) = w +:+ Py.rstrip s.
Proof.
  intros Hs. induction w as [|c w IH]; [done|].
  rewrite !append_cons, rstrip_cons, IH; [done|].
  rewrite IH. destruct w; [done|]. by rewrite append_cons.
Qed.

Lemma lacks_app c (s t : string) :
  lacks c (s +:+ t) = lacks c s && lacks c t.
Proof. apply all_chars_app. Qed.

(** A string without an occurrence of the separator is one piece. *)
Lemma split_no_contains c0 p (s : string) :
  Py.contains (String c0 p) s = false → Py.split (String c0 p) s = [s].
Proof.
  induction s as [|c s IH]; intros Hs; [done|].
  rewrite contains_cons in Hs. apply orb_false_iff in Hs as [Hc Hs].
  unfold Py.split in *.
  change (Py.split_go (String c0 p) 0 (String c s)) with
    (if Py.startswith (String c0 p) (String c s)
     then EmptyString :: Py.split_go (String c0 p) (String.length p) s
     else match Py.split_go (String c0 p) 0 s with
          | q :: qs => String c q :: qs
          | [] => [String c EmptyString]
          end).
  by rewrite Hc, IH.
Qed.

(** A prefix without the first character of the separator stays in the
    first piece. *)
Lemma split_prefix c0 p (w s : string) :
  lacks c0 w = true →
  ∃ q qs, Py.split (String c0 p) s = q :: qs ∧
          Py.split (String c0 p) (w +:+ s) = (w +:+ q) :: qs.
Proof.
  intros Hw. induction w as [|c w IH].
  - pose proof (split_go_nonempty (String c0 p) 0 s) as Hne.
    unfold Py.split. rewrite append_empty_l.
    destruct (Py.split_go (String c0 p) 0 s) as [|q qs]; [done|].
    by exists q, qs.
  - apply andb_true_iff in Hw as [Hc Hw].
    destruct (IH Hw) as (q & qs & Hs & Hws). exists q, qs. split; [done|].
    by rewrite append_cons, split_cons, Hws.
Qed.

Section MoreExpressionFacts.
Context (toLowerCase stemWordPorter : string → string).
Context (ii : InvertedIndex) (docIDSet : gset Z).

Local Abbreviation simple :=
  (simpleExpressionHandler toLowerCase stemWordPorter ii docIDSet).
Local Abbreviation evaluate :=
  (complexExpressionHandler toLowerCase stemWordPorter ii docIDSet).
Local Abbreviation docs :=
  (λ w, getTermDocumentSet ii (preprocessedTerm toLowerCase stemWordPorter w)).

Lemma contains_AND_after_OR B :
  lacks " " B = true → Py.contains " AND " (" OR " +:+ B) = false.
Proof.
  intros HB.
  change (" OR " +:+ B) with
    (String " " (String "O" (String "R" (String " " B)))).
  rewrite !contains_cons, (contains_lacks " " "AND " B HB).
  change (Py.startswith " AND " (String " " B)) with (Py.startswith "AND " B).
  by rewrite (startswith_lacks "AND " " " B).
Qed.

Lemma evaluate_OR A B :
  term_like A → term_like B →
  evaluate (A +:+ " OR " +:+ B) = Ok (docs A ∪ docs B).
Proof.
  intros HA HB.
  pose proof (term_like_lacks A HA) as (HsA & _ & _ & HwA & _).
  pose proof (term_like_lacks B HB) as (HsB & _ & _ & HwB & _).
  unfold complexExpressionHandler.
  rewrite (contains_app_lacks " " "AND " A _ HsA), contains_AND_after_OR by done.
  rewrite contains_app, (split_app " " "OR " A B HsA),
    (split_lacks " " "OR " B HsB).
  cbn [mapM]. rewrite !strip_id, !simple_term by done. reflexivity.
Qed.

Lemma contains_AND_in_NOT B :
  lacks " " B = true → Py.contains " AND " ("NOT " +:+ B) = false.
Proof.
  intros HB.
  change ("NOT " +:+ B) with
    (String "N" (String "O" (String "T" (String " " B)))).
  rewrite !contains_cons, (contains_lacks " " "AND " B HB).
  change (Py.startswith " AND " (String " " B)) with (Py.startswith "AND " B).
  by rewrite (startswith_lacks "AND " " " B).
Qed.

(** The operand "NOT B", once stripped, is the complement of B. *)
Lemma simple_NOT_operand B :
  term_like B → simple (Py.strip ("NOT " +:+ B)) = Ok (docIDSet ∖ docs B).
Proof.
  intros (_ & _ & HqB & HwB & _)%term_like_lacks.
  assert (∃ a, Py.strip ("NOT " +:+ B) = "NOT" +:+ a ∧ Py.strip a = B)
    as (a & -> & Ha).
  { destruct B as [|b B].
    - exists EmptyString. split; reflexivity.
    - exists (" " +:+ String b B). split; [|by apply strip_after_blank].
      unfold Py.strip.
      change (Py.lstrip ("NOT " +:+ String b B)) with ("NOT " +:+ String b B).
      rewrite rstrip_app; rewrite (rstrip_id (String b B) HwB); done. }
  rewrite (simple_NOT toLowerCase stemWordPorter ii docIDSet _ EmptyString a).
  - rewrite Ha. unfold documentSetOf.
    by rewrite (contains_lacks dquote EmptyString B HqB).
  - by rewrite partition_here, drop_app by apply startswith_app.
Qed.

Lemma evaluate_AND_NOT A B :
  term_like A → term_like B →
  evaluate (A +:+ " AND NOT " +:+ B) = Ok (docs A ∩ (docIDSet ∖ docs B)).
Proof.
  intros HA HB.
  pose proof (term_like_lacks A HA) as (HsA & _ & _ & HwA & _).
  pose proof (term_like_lacks B HB) as (HsB & _).
  change (A +:+ " AND NOT " +:+ B) with (A +:+ " AND " +:+ "NOT " +:+ B).
  unfold complexExpressionHandler.
  rewrite contains_app, (split_app " " "AND " A _ HsA),
    (split_no_contains " " "AND " _ (contains_AND_in_NOT B HsB)).
  cbn [mapM]. rewrite strip_id, simple_term, simple_NOT_operand by done.
  reflexivity.
Qed.
End MoreExpressionFacts.

(** X6: a quoted expression without a blank and without a comma, that is
    a phrase of a single word, makes the phrase handler and the simple
    expression handler raise [IndexError]: the comma form has one term
    only and the second one is read all the same. *)
Theorem single_word_phrase_raises_IndexError
    (toLowerCase stemWordPorter : string → string) (ii : InvertedIndex)
    (docIDSet : gset Z) (expression : string) :
  lacks " " expression = true → lacks "," expression = true →
  Py.contains "NOT" expression = false →
  Py.contains (String dquote EmptyString) expression = true →
  phraseHandler toLowerCase stemWordPorter ii expression = Raise IndexError ∧
  simpleExpressionHandler toLowerCase stemWordPorter ii docIDSet expression
    = Raise IndexError.
Proof.
  intros Hblank Hcomma Hnot Hquote.
  assert (phraseHandler toLowerCase stemWordPorter ii expression
          = Raise IndexError) as Hphrase.
  { unfold phraseHandler, proximityHandler.
    rewrite (replace_lacks " " "," (Py.remove is_quote expression))
      by (by apply all_chars_remove).
    rewrite (split_lacks "," EmptyString) by (by apply all_chars_remove).
    reflexivity. }
  split; [done|]. unfold simpleExpressionHandler. by rewrite Hnot, Hquote.
Qed.

Lemma single_word_phrase_raises_IndexError_witness :
  Sample.phrase (quoted "cat") = Raise IndexError ∧
  Sample.simple (quoted "cat") = Raise IndexError.
Proof.
  apply (single_word_phrase_raises_IndexError Sample.toLowerCase
           Sample.stemWordPorter Sample.index Sample.docIDSet (quoted "cat"));
    reflexivity.
Defined.

(** X7: a query without " AND " and " OR " that holds the marker # and has
    the form prefix(pair)tail, with no parenthesis in the prefix and in
    the pair, is answered by the proximity handler on the pair with
    [isPhrase = false]; the distance is the number read from the digits of
    the prefix, all other characters of the prefix being dropped, and a
    prefix without a digit raises [ValueError]. *)
Theorem proximity_query_delegates_to_proximity_handler
    (toLowerCase stemWordPorter : string → string) (ii : InvertedIndex)
    (docIDSet : gset Z) (pre pair tail : string) :
  Py.contains " AND " (pre +:+ "(" +:+ pair +:+ ")" +:+ tail) = false →
  Py.contains " OR " (pre +:+ "(" +:+ pair +:+ ")" +:+ tail) = false →
  Py.contains "#" (pre +:+ "(" +:+ pair +:+ ")" +:+ tail) = true →
  lacks "(" pre = true → lacks "(" pair = true → lacks ")" pair = true →
  complexExpressionHandler toLowerCase stemWordPorter ii docIDSet
    (pre +:+ "(" +:+ pair +:+ ")" +:+ tail) =
  (distance <~ Py.int (Py.remove (λ c, negb (Py.is_digit c)) pre);
   proximityHandler toLowerCase stemWordPorter ii pair distance false).
Proof.
  intros Hand Hor Hhash Hpre Hpair1 Hpair2.
  unfold complexExpressionHandler. rewrite Hand, Hor, Hhash.
  rewrite (split_app "(" EmptyString pre _ Hpre).
  cbn [getitem lookup list_lookup bind].
  destruct (Py.int _) as [distance| |]; [|done..]. cbn [bind].
  destruct (split_prefix "(" EmptyString (pair +:+ ")") tail)
    as (q & qs & Htail & Hsplit).
  { by rewrite lacks_app, Hpair1. }
  rewrite append_assoc in Hsplit. rewrite Hsplit.
  cbn [getitem lookup list_lookup bind].
  rewrite append_assoc, (split_app ")" EmptyString pair q Hpair2).
  reflexivity.
Qed.

Lemma proximity_query_delegates_to_proximity_handler_witness :
  Sample.evaluate ("#1" +:+ "(" +:+ "cat, dog" +:+ ")" +:+ EmptyString) =
  (distance <~ Py.int (Py.remove (λ c, negb (Py.is_digit c)) "#1");
   proximityHandler Sample.toLowerCase Sample.stemWordPorter Sample.index
     "cat, dog" distance false).
Proof.
  apply (proximity_query_delegates_to_proximity_handler Sample.toLowerCase
           Sample.stemWordPorter Sample.index Sample.docIDSet
           "#1" "cat, dog" EmptyString); reflexivity.
Defined.

(** X8: a query without " AND " and " OR " that holds the marker # but no
    opening parenthesis always raises: [ValueError] when it holds no digit
    at all, [IndexError] otherwise. *)
Theorem proximity_query_without_parenthesis_raises
    (toLowerCase stemWordPorter : string → string) (ii : InvertedIndex)
    (docIDSet : gset Z) (query : string) :
  Py.contains " AND " query = false → Py.contains " OR " query = false →
  Py.contains "#" query = true → lacks "(" query = true →
  complexExpressionHandler toLowerCase stemWordPorter ii docIDSet query =
  match Py.remove (λ c, negb (Py.is_digit c)) query with
  | EmptyString => Raise ValueError
  | String _ _ => Raise IndexError
  end.
Proof.
  intros Hand Hor Hhash Hparen.
  unfold complexExpressionHandler. rewrite Hand, Hor, Hhash.
  rewrite (split_lacks "(" EmptyString query Hparen).
  cbn [getitem lookup list_lookup bind].
  by destruct (Py.remove _ query).
Qed.

Lemma proximity_query_without_parenthesis_raises_witness :
  Sample.evaluate "#3 cat dog" =
  match Py.remove (λ c, negb (Py.is_digit c)) "#3 cat dog" with
  | EmptyString => Raise ValueError
  | String _ _ => Raise IndexError
  end.
Proof.
  apply (proximity_query_without_parenthesis_raises Sample.toLowerCase
           Sample.stemWordPorter Sample.index Sample.docIDSet "#3 cat dog");
    reflexivity.
Defined.

(** X9: on single terms A and B, "A AND NOT B" evaluates to the documents
    of A that are not documents of B, provided the documents of A lie in
    the universe set. *)
Theorem and_not_is_set_difference
    (toLowerCase stemWordPorter : string → string) (ii : InvertedIndex)
    (docIDSet : gset Z) (A B : string) :
  term_like A → term_like B →
  getTermDocumentSet ii (preprocessedTerm toLowerCase stemWordPorter A)
    ⊆ docIDSet →
  complexExpressionHandler toLowerCase stemWordPorter ii docIDSet
    (A +:+ " AND NOT " +:+ B) =
  Ok (getTermDocumentSet ii (preprocessedTerm toLowerCase stemWordPorter A) ∖
      getTermDocumentSet ii (preprocessedTerm toLowerCase stemWordPorter B)).
Proof.
  intros HA HB HU. rewrite evaluate_AND_NOT by done. f_equal.
  apply set_eq. intros x.
  rewrite elem_of_intersection, !elem_of_difference.
  split; [tauto|]. intros [Hx ?]. specialize (HU x Hx). tauto.
Qed.

Lemma and_not_is_set_difference_witness :
  Sample.evaluate ("cat" +:+ " AND NOT " +:+ "dog") =
  Ok (getTermDocumentSet Sample.index
        (preprocessedTerm Sample.toLowerCase Sample.stemWordPorter "cat") ∖
      getTermDocumentSet Sample.index
        (preprocessedTerm Sample.toLowerCase Sample.stemWordPorter "dog")).
Proof.
  apply (and_not_is_set_difference Sample.toLowerCase Sample.stemWordPorter
           Sample.index Sample.docIDSet "cat" "dog").
  - split; reflexivity.
  - split; reflexivity.
  - by_evaluation.
Defined.

(** X10: on single terms A and B, "A OR B" evaluates to the union and
    "A AND B" to the intersection of the two document sets, and neither
    depends on the order of the operands. *)
Theorem and_or_on_terms_are_commutative
    (toLowerCase stemWordPorter : string → string) (ii : InvertedIndex)
    (docIDSet : gset Z) (A B : string) :
  term_like A → term_like B →
  complexExpressionHandler toLowerCase stemWordPorter ii docIDSet
    (A +:+ " OR " +:+ B) =
  Ok (getTermDocumentSet ii (preprocessedTerm toLowerCase stemWordPorter A) ∪
      getTermDocumentSet ii (preprocessedTerm toLowerCase stemWordPorter B)) ∧
  complexExpressionHandler toLowerCase stemWordPorter ii docIDSet
    (A +:+ " AND " +:+ B) =
  Ok (getTermDocumentSet ii (preprocessedTerm toLowerCase stemWordPorter A) ∩
      getTermDocumentSet ii (preprocessedTerm toLowerCase stemWordPorter B)) ∧
  complexExpressionHandler toLowerCase stemWordPorter ii docIDSet
    (A +:+ " OR " +:+ B) =
  complexExpressionHandler toLowerCase stemWordPorter ii docIDSet
    (B +:+ " OR " +:+ A) ∧
  complexExpressionHandler toLowerCase stemWordPorter ii docIDSet
    (A +:+ " AND " +:+ B) =
  complexExpressionHandler toLowerCase stemWordPorter ii docIDSet
    (B +:+ " AND " +:+ A).
Proof.
  intros HA HB. rewrite !evaluate_OR, !evaluate_AND by done.
  repeat split; f_equal.
  - apply (comm_L (∪)).
  - apply (comm_L (∩)).
Qed.

Lemma and_or_on_terms_are_commutative_witness :
  Sample.evaluate ("cat" +:+ " OR " +:+ "dog") =
  Ok (getTermDocumentSet Sample.index
        (preprocessedTerm Sample.toLowerCase Sample.stemWordPorter "cat") ∪
      getTermDocumentSet Sample.index
        (preprocessedTerm Sample.toLowerCase Sample.stemWordPorter "dog")) ∧
  Sample.evaluate ("cat" +:+ " AND " +:+ "dog") =
  Ok (getTermDocumentSet Sample.index
        (preprocessedTerm Sample.toLowerCase Sample.stemWordPorter "cat") ∩
      getTermDocumentSet Sample.index
        (preprocessedTerm Sample.toLowerCase Sample.stemWordPorter "dog")) ∧
  Sample.evaluate ("cat" +:+ " OR " +:+ "dog") =
  Sample.evaluate ("dog" +:+ " OR " +:+ "cat") ∧
  Sample.evaluate ("cat" +:+ " AND " +:+ "dog") =
  Sample.evaluate ("dog" +:+ " AND " +:+ "cat").
Proof.
  apply (and_or_on_terms_are_commutative Sample.toLowerCase
           Sample.stemWordPorter Sample.index Sample.docIDSet "cat" "dog");
    split; reflexivity.
Defined.

(** ** Further properties of the ranking *)

Lemma omap_nil_iff {A B} (f : A → option B) (l : list A) :
  omap f l = [] ↔ ∀ x, x ∈ l → f x = None.
Proof.
  induction l as [|x l IH]; cbn [omap list_omap].
  - split; [|done]. intros _ x Hx. by apply elem_of_nil in Hx.
  - destruct (f x) as [y|] eqn:Hfx.
    + split; [done|]. intros H. specialize (H x (list_elem_of_here x l)).
      congruence.
    + rewrite IH. split.
      * intros H y [->|Hy]%elem_of_cons; auto.
      * intros H y Hy. apply H. by right.
Qed.

(** X11: a document is a key of the ranking exactly when a token of the
    query that is neither empty nor a stop-word has, after stemming,
    postings in that document; its score is then the sum, over those
    tokens in the order of the query and with repetitions, of
    (1 + log10 tf) * log10 (collectionSize / df), the quotient being the
    integer quotient. *)
Theorem ranking_scores_are_sums_of_token_contributions
    (toLowerCase stemWordPorter : string → string)
    (tokenize : string → list string) (isNotAStopword : string → bool)
    (ii : InvertedIndex) (docIDSet : gset Z) (query : string) (doc : Z) :
  calculateTFIDF toLowerCase stemWordPorter tokenize isNotAStopword ii
    docIDSet query !! doc =
  match omap (tokenContribution stemWordPorter isNotAStopword ii docIDSet doc)
          (tokenize (toLowerCase query)) with
  | [] => None
  | contributions => Some (sumR contributions)
  end ∧
  (doc ∈ dom (calculateTFIDF toLowerCase stemWordPorter tokenize
                isNotAStopword ii docIDSet query) ↔
   ∃ term, term ∈ tokenize (toLowerCase query) ∧
           (0 <? len (list_ascii_of_string term)) && isNotAStopword term = true ∧
           doc ∈ getTermDocumentSet ii (stemWordPorter term)).
Proof.
  split; [apply calculateTFIDF_score|].
  rewrite elem_of_dom, calculateTFIDF_score.
  destruct (omap _ _) as [|c cs] eqn:Hcs.
  - split; [by intros [? ?]|].
    intros (term & Hin & Hvalid & Hdoc). exfalso.
    rewrite omap_nil_iff in Hcs. specialize (Hcs term Hin).
    unfold tokenContribution in Hcs. rewrite Hvalid in Hcs.
    unfold getTermDocumentSet in Hdoc.
    apply elem_of_dom in Hdoc as [positions Hpos].
    by rewrite Hpos in Hcs.
  - split; [|by eexists]. intros _.
    assert (c ∈ omap (tokenContribution stemWordPorter isNotAStopword ii
                        docIDSet doc) (tokenize (toLowerCase query))) as Hc
      by (rewrite Hcs; by left).
    apply list_elem_of_omap in Hc as (term & Hin & Hterm).
    exists term. split; [done|]. unfold tokenContribution in Hterm.
    destruct (_ && _); [|done]. split; [done|].
    unfold getTermDocumentSet. apply elem_of_dom.
    destruct (getTermDocumentDictionary ii (stemWordPorter term) !! doc);
      [by eexists|done].
Qed.

(** X12: a term that occurs in every document of the collection adds 0 to
    the score of a document in which it has one position at least, so a
    query whose only token is such a term ranks that document with
    score 0. *)
Theorem term_in_every_document_scores_zero
    (toLowerCase stemWordPorter : string → string)
    (tokenize : string → list string) (isNotAStopword : string → bool)
    (ii : InvertedIndex) (docIDSet : gset Z)
    (query term : string) (doc : Z) (positions : list Z) :
  tokenize (toLowerCase query) = [term] →
  (0 <? len (list_ascii_of_string term)) && isNotAStopword term = true →
  getTermDocumentDictionary ii (stemWordPorter term) !! doc = Some positions →
  positions ≠ [] →
  size (getTermDocumentDictionary ii (stemWordPorter term)) = size docIDSet →
  partialScore docIDSet positions (Z.of_nat (size docIDSet)) = 0%R ∧
  calculateTFIDF toLowerCase stemWordPorter tokenize isNotAStopword ii
    docIDSet query !! doc = Some 0%R.
Proof.
  intros Htokens Hvalid Hpos Hpositions Hsize.
  assert (size docIDSet ≠ 0%nat) as Hne.
  { rewrite <- Hsize. intros Hz%map_size_empty_iff.
    by rewrite Hz, lookup_empty in Hpos. }
  assert (partialScore docIDSet positions (Z.of_nat (size docIDSet)) = 0%R)
    as Hzero.
  { unfold partialScore, collectionSize.
    rewrite Z.div_same by lia. rewrite np_log10_1. lra. }
  split; [done|]. rewrite calculateTFIDF_score, Htokens.
  cbn [omap list_omap]. unfold tokenContribution.
  rewrite Hvalid, Hpos, Hsize, Hzero. unfold sumR. cbn [foldr].
  f_equal. lra.
Qed.

Lemma term_in_every_document_scores_zero_witness :
  partialScore {[ 1; 3 ]} [4] (Z.of_nat (size ({[ 1; 3 ]} : gset Z))) = 0%R ∧
  calculateTFIDF Sample.toLowerCase Sample.stemWordPorter Sample.tokenize
    Sample.isNotAStopword Sample.index {[ 1; 3 ]} "dog" !! 1 = Some 0%R.
Proof.
  apply (term_in_every_document_scores_zero Sample.toLowerCase
           Sample.stemWordPorter Sample.tokenize Sample.isNotAStopword
           Sample.index {[ 1; 3 ]} "dog" "dog" 1 [4]);
    reflexivity || discriminate.
Defined.

(** X13: a token that is empty or a stop-word is ignored by the ranking:
    the query returns the scores of the query without that token. *)
Theorem stopwords_and_empty_tokens_are_ignored
    (toLowerCase stemWordPorter : string → string)
    (tokenize : string → list string) (isNotAStopword : string → bool)
    (ii : InvertedIndex) (docIDSet : gset Z)
    (query query' term : string) (before after : list string) :
  term = EmptyString ∨ isNotAStopword term = false →
  tokenize (toLowerCase query) = before ++ term :: after →
  tokenize (toLowerCase query') = before ++ after →
  calculateTFIDF toLowerCase stemWordPorter tokenize isNotAStopword ii
    docIDSet query =
  calculateTFIDF toLowerCase stemWordPorter tokenize isNotAStopword ii
    docIDSet query'.
Proof.
  intros Hterm Hq Hq'. unfold calculateTFIDF.
  rewrite Hq, Hq', !foldl_app. cbn [foldl]. f_equal.
  unfold scoreTerm. destruct Hterm as [-> | ->]; [done|].
  by rewrite andb_false_r.
Qed.

Lemma stopwords_and_empty_tokens_are_ignored_witness :
  Sample.rank "cat the dog" = Sample.rank "cat dog".
Proof.
  apply (stopwords_and_empty_tokens_are_ignored Sample.toLowerCase
           Sample.stemWordPorter Sample.tokenize Sample.isNotAStopword
           Sample.index Sample.docIDSet "cat the dog" "cat dog" "the"
           ["cat"] ["dog"]).
  - right. reflexivity.
  - reflexivity.
  - reflexivity.
Defined.

(** ** Further properties of the result files *)

Lemma StronglySorted_le_lt (l : list Z) :
  StronglySorted Z.le l → NoDup l → StronglySorted Z.lt l.
Proof.
  induction 1 as [|x l Hs IH Hall]; intros Hnd; [constructor|].
  apply NoDup_cons in Hnd as [Hx Hnd]. constructor; [by apply IH|].
  rewrite Forall_forall in *. intros y Hy.
  specialize (Hall y Hy). assert (x ≠ y) by (by intros ->). lia.
Qed.

Lemma sorted_elements_spec (v : gset Z) :
  StronglySorted Z.lt (merge_sort Z.le (elements v)) ∧
  ∀ d, d ∈ merge_sort Z.le (elements v) ↔ d ∈ v.
Proof.
  split.
  - apply StronglySorted_le_lt; [apply StronglySorted_merge_sort; apply _|].
    rewrite merge_sort_Permutation. apply NoDup_elements.
  - intros d. by rewrite merge_sort_Permutation, elem_of_elements.
Qed.

Lemma writeBooleanResultsToFile_one k (v : gset Z) :
  writeBooleanResultsToFile [(k, v)] =
  (if decide (v = ∅) then [NullLine k] else []) ++
  (BooleanLine k <$> take 999 (merge_sort Z.le (elements v))).
Proof.
  unfold writeBooleanResultsToFile. cbn [flat_map fst snd].
  rewrite app_nil_r, writeEntries_take by lia.
  change (Z.to_nat (999 - 0)) with 999%nat. f_equal.
  unfold len. change (length (elements v)) with (size v).
  destruct (decide (v = ∅)) as [->|Hne].
  - by rewrite size_empty.
  - destruct (Z.eqb_spec (Z.of_nat (size v)) 0) as [Hz|]; [|done].
    exfalso. apply Hne. apply leibniz_equiv, size_empty_iff. lia.
Qed.

(** X14: for one query, the boolean writer writes the single "null" line
    when the result is empty; otherwise it writes one line per document,
    in strictly ascending order of document ID, for the smallest IDs of
    the result, 999 of them at most. *)
Theorem boolean_writer_lists_smallest_ids_ascending (k : Z) (v : gset Z) :
  (v = ∅ → writeBooleanResultsToFile [(k, v)] = [NullLine k]) ∧
  (v ≠ ∅ →
   ∃ docs,
     writeBooleanResultsToFile [(k, v)] = BooleanLine k <$> docs ∧
     StronglySorted Z.lt docs ∧
     length docs = (size v `min` 999)%nat ∧
     (∀ d, d ∈ docs → d ∈ v) ∧
     (∀ d d', d ∈ docs → d' ∈ v → d' ∉ docs → d < d')).
Proof.
  rewrite writeBooleanResultsToFile_one. split.
  - intros ->. rewrite decide_True by done.
    by rewrite elements_empty.
  - intros Hne. rewrite decide_False by done.
    destruct (sorted_elements_spec v) as [Hsorted Hmem].
    set (sorted := merge_sort Z.le (elements v)) in *.
    exists (take 999 sorted). split; [done|].
    rewrite <- (take_drop 999 sorted) in Hsorted.
    apply StronglySorted_app in Hsorted as (Hcross & Htake & _).
    repeat split.
    + done.
    + rewrite length_take. unfold sorted.
      rewrite merge_sort_Permutation. change (length (elements v)) with (size v).
      lia.
    + intros d Hd. apply Hmem. rewrite <- (take_drop 999 sorted).
      apply elem_of_app. by left.
    + intros d d' Hd Hd' Hnot. apply Hcross; [done|].
      apply Hmem in Hd'. rewrite <- (take_drop 999 sorted) in Hd'.
      apply elem_of_app in Hd' as [?|?]; done.
Qed.

Lemma boolean_writer_lists_smallest_ids_ascending_witness :
  ∃ docs,
    writeBooleanResultsToFile [(7, {[ 5; 2; 9 ]})] = BooleanLine 7 <$> docs ∧
    StronglySorted Z.lt docs ∧
    length docs = (size ({[ 5%Z; 2%Z; 9%Z ]} : gset Z) `min` 999)%nat ∧
    (∀ d, d ∈ docs → d ∈ ({[ 5; 2; 9 ]} : gset Z)) ∧
    (∀ d d', d ∈ docs → d' ∈ ({[ 5; 2; 9 ]} : gset Z) → d' ∉ docs → d < d').
Proof.
  apply (proj2 (boolean_writer_lists_smallest_ids_ascending 7 {[ 5; 2; 9 ]})).
  by_evaluation.
Defined.







Section Blocks.
Context {A : Type} (write : list A → list ResultLine) (key : A → Z).
Hypothesis write_nil : write [] = [].
Hypothesis write_cons : ∀ r rs, write (r :: rs) = write [r] ++ write rs.
Hypothesis block_length : ∀ r, (1 ≤ length (write [r]) ≤ 999)%nat.
Hypothesis block_query : ∀ r line, line ∈ write [r] → lineQuery line = key r.

Lemma blocks_spec rs :
  (length rs ≤ length (write rs) ≤ 999 * length rs)%nat ∧
  (∀ line, line ∈ write rs → lineQuery line ∈ key <$> rs) ∧
  (∀ r, r ∈ rs → ∃ line, line ∈ write rs ∧ lineQuery line = key r).
Proof.
  induction rs as [|r rs (IHlen & IHin & IHex)].
  - rewrite write_nil. repeat split; cbn; try lia.
    + intros line Hl. by apply elem_of_nil in Hl.
    + intros r Hr. by apply elem_of_nil in Hr.
  - rewrite write_cons. pose proof (block_length r) as Hr.
    repeat split.
    + rewrite length_app. cbn [length]. lia.
    + rewrite length_app. cbn [length]. lia.
    + intros line [Hl|Hl]%elem_of_app; rewrite fmap_cons.
      * rewrite (block_query r line Hl). by left.
      * right. by apply IHin.
    + intros r' [->|Hr']%elem_of_cons.
      * destruct (write [r]) as [|line block] eqn:Hblock;
          [cbn in Hr; lia|].
        exists line. split; [apply elem_of_app; left; by left|].
        apply block_query. rewrite Hblock. by left.
      * destruct (IHex r' Hr') as (line & Hl & Hk).
        exists line. split; [apply elem_of_app; by right|done].
Qed.
End Blocks.

(** X16: both writers give every query of the batch a block of at least
    one and at most 999 lines, in the order of the batch: the number of
    lines lies between the number of queries and 999 times that number,
    every line belongs to a query of the batch, and every query has a
    line. *)
Theorem every_query_gets_between_1_and_999_lines
    (booleanResults : list (Z * gset Z)) (rankedResults : list (Z * gmap Z R)) :
  ((length booleanResults ≤ length (writeBooleanResultsToFile booleanResults)
    ≤ 999 * length booleanResults)%nat ∧
   (∀ line, line ∈ writeBooleanResultsToFile booleanResults →
            lineQuery line ∈ booleanResults.*1) ∧
   (∀ kv, kv ∈ booleanResults →
          ∃ line, line ∈ writeBooleanResultsToFile booleanResults ∧
                  lineQuery line = kv.1)) ∧
  ((length rankedResults ≤ length (writeTFIDFResultsToFile rankedResults)
    ≤ 999 * length rankedResults)%nat ∧
   (∀ line, line ∈ writeTFIDFResultsToFile rankedResults →
            lineQuery line ∈ rankedResults.*1) ∧
   (∀ kv, kv ∈ rankedResults →
          ∃ line, line ∈ writeTFIDFResultsToFile rankedResults ∧
                  lineQuery line = kv.1)).
Proof.
  split.
  - apply (blocks_spec writeBooleanResultsToFile fst); try done.
    + intros r rs. unfold writeBooleanResultsToFile. cbn [flat_map].
      by rewrite app_nil_r.
    + intros [k v]. destruct (decide (v = ∅)) as [->|Hne].
      * rewrite writeBooleanResultsToFile_one, decide_True by done.
        rewrite elements_empty. simpl. lia.
      * rewrite writeBooleanResultsToFile_length
          by (rewrite size_non_empty_iff; by intros ?%leibniz_equiv).
        assert (size v ≠ 0%nat)
          by (rewrite size_non_empty_iff; by intros ?%leibniz_equiv).
        lia.
    + intros [k v] line. rewrite writeBooleanResultsToFile_one.
      intros [Hl|Hl]%elem_of_app.
      * destruct (decide (v = ∅)); [|by apply elem_of_nil in Hl].
        by apply list_elem_of_singleton in Hl as ->.
      * by apply list_elem_of_fmap in Hl as (d & -> & _).
  - apply (blocks_spec writeTFIDFResultsToFile fst); try done.
    + intros r rs. unfold writeTFIDFResultsToFile. cbn [flat_map].
      by rewrite app_nil_r.
    + intros [k v]. destruct (decide (size v = 0%nat)) as [Hz|Hnz].
      * apply map_size_empty_iff in Hz as ->.
        unfold writeTFIDFResultsToFile. cbn [flat_map fst snd].
        rewrite map_size_empty, map_to_list_empty. simpl. lia.
      * rewrite writeTFIDFResultsToFile_length by done. lia.
    + intros [k v] line. unfold writeTFIDFResultsToFile. cbn [flat_map fst snd].
      rewrite app_nil_r, writeEntries_take by lia.
      intros [Hl|Hl]%elem_of_app.
      * destruct (_ =? _); [|by apply elem_of_nil in Hl].
        by apply list_elem_of_singleton in Hl as ->.
      * by apply list_elem_of_fmap in Hl as (d & -> & _).
Qed.

(** ** Batch drivers *)

Lemma od_set_fresh {A} k (v : A) (d : list (Z * A)) :
  k ∉ d.*1 → od_set k v d = d ++ [(k, v)].
Proof.
  induction d as [|[k' v'] d IH]; [done|]. cbn [od_set fmap list_fmap fst].
  intros [Hne Hd]%not_elem_of_cons.
  destruct (Z.eqb_spec k' k) as [->|_]; [done|]. by rewrite (IH Hd).
Qed.

Lemma od_set_keys_present {A} k (v : A) (d : list (Z * A)) :
  k ∈ d.*1 → (od_set k v d).*1 = d.*1.
Proof.
  induction d as [|[k' v'] d IH]; [by intros ?%elem_of_nil|].
  cbn [od_set fmap list_fmap fst].
  destruct (Z.eqb_spec k' k) as [->|Hne]; [done|].
  intros [?|Hd]%elem_of_cons; [congruence|]. cbn. by rewrite (IH Hd).
Qed.

Lemma od_set_lookup {A} k (v : A) (d : list (Z * A)) k' v' :
  NoDup d.*1 →
  (k', v') ∈ od_set k v d ↔ (k' = k ∧ v' = v) ∨ (k' ≠ k ∧ (k', v') ∈ d).
Proof.
  induction d as [|[k0 v0] d IH]; intros Hnd.
  - cbn. rewrite list_elem_of_singleton. split.
    + intros [= -> ->]. by left.
    + intros [[-> ->]|[_ ?%elem_of_nil]]; done.
  - rewrite fmap_cons in Hnd. apply NoDup_cons in Hnd as [Hk0 Hnd].
    cbn [od_set fst]. destruct (Z.eqb_spec k0 k) as [->|Hne].
    + rewrite !elem_of_cons. split.
      * intros [[= -> ->]|Hin]; [by left|]. right. split; [|by right].
        intros ->. apply Hk0. apply list_elem_of_fmap. by exists (k, v').
      * intros [[-> ->]|[Hk [[= ? ?]|Hin]]]; [by left|congruence|by right].
    + rewrite !elem_of_cons, (IH Hnd). split.
      * intros [[= -> ->]|[[-> ->]|[Hk Hin]]];
          [right; split; [done|by left]|by left|right; split; [done|by right]].
      * intros [[-> ->]|[Hk [[= -> ->]|Hin]]];
          [right; by left|by left|right; right; by split].
Qed.

Lemma foldM_app {A B} (f : B → A → Res B) acc (l1 l2 : list A) :
  foldM f acc (l1 ++ l2) = (acc' <~ foldM f acc l1; foldM f acc' l2).
Proof.
  revert acc. induction l1 as [|x l1 IH]; intros acc; [done|].
  cbn [foldM app]. destruct (f acc x); [|done..]. cbn [bind]. apply IH.
Qed.

Section DriverFacts.
Context (toLowerCase stemWordPorter : string → string).
Context (tokenize : string → list string) (isNotAStopword : string → bool).
Context (ii : InvertedIndex) (docIDSet : gset Z).

Local Abbreviation evaluate :=
  (complexExpressionHandler toLowerCase stemWordPorter ii docIDSet).
Local Abbreviation step :=
  (λ (queryResults : list (Z * gset Z)) (kv : Z * string),
     result <~ evaluate kv.2; Ok (od_set kv.1 result queryResults)).

Lemma foldM_queries_zip queries results acc :
  NoDup (acc.*1 ++ queries.*1) →
  mapM (λ kv : Z * string, evaluate kv.2) queries = Ok results →
  foldM step acc queries = Ok (acc ++ zip queries.*1 results).
Proof.
  revert results acc.
  induction queries as [|[k q] queries IH]; intros results acc Hnd Hmap.
  - cbn in Hmap. simplify_eq. cbn. by rewrite app_nil_r.
  - cbn [mapM snd] in Hmap. cbn [foldM fst snd].
    destruct (evaluate q) as [r| |]; [|done..]. cbn [bind] in *.
    destruct (mapM _ queries) as [rs| |] eqn:Hrs; [|done..].
    cbn [bind] in Hmap. simplify_eq.
    rewrite fmap_cons in Hnd. cbn [fst] in Hnd.
    rewrite od_set_fresh.
    + rewrite (IH rs); [|by rewrite fmap_app, <- app_assoc|done].
      by rewrite <- app_assoc.
    + apply NoDup_app in Hnd as (_ & Hdisj & _).
      intros Hk. apply (Hdisj k Hk). by left.
Qed.

Lemma foldM_queries_runs queries results acc :
  mapM (λ kv : Z * string, evaluate kv.2) queries = Ok results →
  ∃ acc', foldM step acc queries = Ok acc'.
Proof.
  revert results acc.
  induction queries as [|[k q] queries IH]; intros results acc Hmap.
  - by exists acc.
  - cbn [mapM snd] in Hmap. cbn [foldM fst snd].
    destruct (evaluate q) as [r| |]; [|done..]. cbn [bind] in *.
    destruct (mapM _ queries) as [rs| |] eqn:Hrs; [|done..].
    by apply (IH rs).
Qed.
End DriverFacts.

(** X17: when the queries of a batch have distinct IDs and all evaluate,
    the boolean driver writes the block of each query in the order of the
    batch; when a query raises, the exception leaves the driver and no
    line at all is written, also for the queries evaluated before. *)
Theorem boolean_batch_writes_all_or_nothing
    (toLowerCase stemWordPorter : string → string) (ii : InvertedIndex)
    (docIDSet : gset Z) :
  (∀ queries results,
     NoDup queries.*1 →
     mapM (λ kv : Z * string,
             complexExpressionHandler toLowerCase stemWordPorter ii docIDSet kv.2)
          queries = Ok results →
     executeBooleanQueries toLowerCase stemWordPorter ii docIDSet queries =
     Ok (writeBooleanResultsToFile (zip queries.*1 results))) ∧
  (∀ before k q after results e,
     mapM (λ kv : Z * string,
             complexExpressionHandler toLowerCase stemWordPorter ii docIDSet kv.2)
          before = Ok results →
     complexExpressionHandler toLowerCase stemWordPorter ii docIDSet q
       = Raise e →
     executeBooleanQueries toLowerCase stemWordPorter ii docIDSet
       (before ++ (k, q) :: after) = Raise e).
Proof.
  split.
  - intros queries results Hnd Hmap. unfold executeBooleanQueries.
    by rewrite (foldM_queries_zip toLowerCase stemWordPorter ii docIDSet
                  queries results []).
  - intros before k q after results e Hmap Hq. unfold executeBooleanQueries.
    rewrite foldM_app.
    destruct (foldM_queries_runs toLowerCase stemWordPorter ii docIDSet
                before results [] Hmap) as (acc & ->).
    cbn [bind foldM snd]. by rewrite Hq.
Qed.

Lemma boolean_batch_writes_all_or_nothing_witness :
  executeBooleanQueries Sample.toLowerCase Sample.stemWordPorter Sample.index
    Sample.docIDSet [(1, "cat AND dog"); (2, "bird")] =
  Ok (writeBooleanResultsToFile
        (zip [(1, "cat AND dog"); (2, "bird")].*1 [ {[ 1 ]}; ∅ ])) ∧
  executeBooleanQueries Sample.toLowerCase Sample.stemWordPorter Sample.index
    Sample.docIDSet ([(1, "cat AND dog")] ++ (2, quoted "cat") :: [(3, "dog")])
  = Raise IndexError.
Proof.
  split.
  - apply (proj1 (boolean_batch_writes_all_or_nothing Sample.toLowerCase
             Sample.stemWordPorter Sample.index Sample.docIDSet)).
    + by_evaluation.
    + vm_compute. reflexivity.
  - apply (proj2 (boolean_batch_writes_all_or_nothing Sample.toLowerCase
             Sample.stemWordPorter Sample.index Sample.docIDSet)
             [(1, "cat AND dog")] 2 (quoted "cat") [(3, "dog")] [ {[ 1 ]} ]).
    + vm_compute. reflexivity.
    + vm_compute. reflexivity.
Defined.

(** X18: the ranked driver never raises; for a batch of queries with
    distinct IDs it writes, in the order of the batch, the block of each
    query's ranking. *)
Theorem ranked_batch_writes_every_ranking
    (toLowerCase stemWordPorter : string → string)
    (tokenize : string → list string) (isNotAStopword : string → bool)
    (ii : InvertedIndex) (docIDSet : gset Z) (queries : list (Z * string)) :
  NoDup queries.*1 →
  executeTFIDFQueries toLowerCase stemWordPorter tokenize isNotAStopword ii
    docIDSet queries =
  writeTFIDFResultsToFile
    ((λ kv : Z * string,
        (kv.1, calculateTFIDF toLowerCase stemWordPorter tokenize
                 isNotAStopword ii docIDSet kv.2)) <$> queries).
Proof.
  intros Hnd. unfold executeTFIDFQueries. f_equal.
  assert (∀ acc : list (Z * gmap Z R),
    NoDup (acc.*1 ++ queries.*1) →
    foldl (λ queryResults kv,
             od_set kv.1
               (calculateTFIDF toLowerCase stemWordPorter tokenize
                  isNotAStopword ii docIDSet kv.2) queryResults) acc queries =
    acc ++ ((λ kv : Z * string,
               (kv.1, calculateTFIDF toLowerCase stemWordPorter tokenize
                        isNotAStopword ii docIDSet kv.2)) <$> queries)) as Hgen.
  { clear Hnd. induction queries as [|[k q] queries IH]; intros acc Hnd.
    - cbn. by rewrite app_nil_r.
    - cbn [foldl fst snd]. rewrite fmap_cons in Hnd. cbn [fst] in Hnd.
      rewrite od_set_fresh.
      + rewrite IH by (by rewrite fmap_app, <- app_assoc).
        by rewrite fmap_cons, <- app_assoc.
      + apply NoDup_app in Hnd as (_ & Hdisj & _).
        intros Hk. apply (Hdisj k Hk). by left. }
  by rewrite (Hgen []).
Qed.

Lemma ranked_batch_writes_every_ranking_witness :
  executeTFIDFQueries Sample.toLowerCase Sample.stemWordPorter Sample.tokenize
    Sample.isNotAStopword Sample.index Sample.docIDSet
    [(1, "cat dog"); (2, "bird")] =
  writeTFIDFResultsToFile
    ((λ kv : Z * string,
        (kv.1, calculateTFIDF Sample.toLowerCase Sample.stemWordPorter
                 Sample.tokenize Sample.isNotAStopword Sample.index
                 Sample.docIDSet kv.2)) <$> [(1, "cat dog"); (2, "bird")]).
Proof.
  apply (ranked_batch_writes_every_ranking Sample.toLowerCase
           Sample.stemWordPorter Sample.tokenize Sample.isNotAStopword
           Sample.index Sample.docIDSet [(1, "cat dog"); (2, "bird")]).
  by_evaluation.
Defined.

(** ** Query files *)

Lemma partition_app_lacks c0 p (w s : string) :
  lacks c0 w = true →
  Py.partition (String c0 p) (w +:+ String c0 p +:+ s) = Some (w, s).
Proof.
  induction w as [|c w IH]; intros Hw.
  - rewrite append_empty_l, partition_here by apply startswith_app.
    by rewrite drop_app.
  - apply andb_true_iff in Hw as [Hc Hw].
    rewrite append_cons, partition_cons by (by apply startswith_first).
    by rewrite (IH Hw).
Qed.

Lemma partition_lacks c0 p (s : string) :
  lacks c0 s = true → Py.partition (String c0 p) s = None.
Proof.
  induction s as [|c s IH]; intros Hs; [done|].
  apply andb_true_iff in Hs as [Hc Hs].
  rewrite partition_cons by (by apply startswith_first). by rewrite (IH Hs).
Qed.

Lemma digit_is_plain c :
  Py.is_digit c = true →
  negb (Py.is_space c) = true ∧ negb (Ascii.eqb c " ") = true.
Proof.
  destruct c as [[] [] [] [] [] [] [] []]; intros Hc; try done.
Qed.

Lemma digits_lack_blank (d : string) :
  all_chars Py.is_digit d = true →
  lacks " " d = true ∧ all_chars (λ c, negb (Py.is_space c)) d = true.
Proof.
  intros Hd. split; (eapply all_chars_impl; [|exact Hd]);
    intros c Hc; by apply digit_is_plain.
Qed.

(** On a non-empty string of digits [int] is the decimal value. *)
Lemma int_literal_digits (d : string) :
  d ≠ EmptyString → all_chars Py.is_digit d = true →
  int_literal d = Ok (Py.int_go 0 d).
Proof.
  intros Hne Hd. unfold int_literal.
  rewrite strip_id by (by apply digits_lack_blank).
  destruct d as [|c d]; [done|]. clear Hne.
  assert (int_digits (String c d) = Ok (Py.int_go 0 (String c d))) as Hdigits
    by (unfold int_digits; by rewrite Hd).
  cbn [all_chars] in Hd. apply andb_true_iff in Hd as [Hc _].
  destruct c as [[] [] [] [] [] [] [] []]; try done.
Qed.

Lemma parseQueryLine_wellformed acc (d text : string) :
  d ≠ EmptyString → all_chars Py.is_digit d = true →
  parseQueryLine acc (d +:+ " " +:+ text) =
  Ok (od_set (Py.int_go 0 d) (Py.strip text) acc).
Proof.
  intros Hne Hd. destruct (digits_lack_blank d Hd) as [Hblank Hspace].
  unfold parseQueryLine, Py.split1.
  rewrite (partition_app_lacks " " EmptyString d text Hblank).
  cbn [getitem lookup list_lookup bind].
  by rewrite strip_id, int_literal_digits.
Qed.

Lemma od_set_NoDup {A} k (v : A) (d : list (Z * A)) :
  NoDup d.*1 → NoDup (od_set k v d).*1.
Proof.
  intros Hnd. destruct (decide (k ∈ d.*1)) as [Hin|Hout].
  - by rewrite od_set_keys_present.
  - rewrite od_set_fresh, fmap_app by done. apply NoDup_app.
    repeat split; [done| |apply NoDup_singleton].
    intros x Hx ->%list_elem_of_singleton. done.
Qed.

Lemma parseQueryLine_NoDup acc line dict :
  parseQueryLine acc line = Ok dict → NoDup acc.*1 → NoDup dict.*1.
Proof.
  unfold parseQueryLine. intros Hrun Hnd.
  destruct (getitem _ 1); [|done..]. cbn [bind] in Hrun.
  destruct (getitem _ 0); [|done..]. cbn [bind] in Hrun.
  destruct (int_literal _); [|done..]. cbn [bind] in Hrun.
  simplify_eq. by apply od_set_NoDup.
Qed.

Lemma foldM_parse_NoDup lines acc dict :
  foldM parseQueryLine acc lines = Ok dict → NoDup acc.*1 → NoDup dict.*1.
Proof.
  revert acc. induction lines as [|line lines IH]; intros acc Hrun Hnd.
  - cbn in Hrun. by simplify_eq.
  - cbn [foldM] in Hrun.
    destruct (parseQueryLine acc line) as [acc'| |] eqn:Hline; [|done..].
    cbn [bind] in Hrun. eapply IH; [done|]. by eapply parseQueryLine_NoDup.
Qed.

(** X19: a query file whose lines are an ID written in digits, one blank
    and a text, with pairwise distinct IDs, parses to the pairs of the ID
    and the stripped text, in the order of the file; only the first blank
    of a line separates the ID, so the text may hold blanks. *)
Theorem query_file_parses_to_ids_and_stripped_texts
    (entries : list (string * string)) :
  Forall (λ e, e.1 ≠ EmptyString ∧ all_chars Py.is_digit e.1 = true) entries →
  NoDup ((λ e : string * string, Py.int_go 0 e.1) <$> entries) →
  parseQueriesFile ((λ e : string * string, e.1 +:+ " " +:+ e.2) <$> entries) =
  Ok ((λ e : string * string, (Py.int_go 0 e.1, Py.strip e.2)) <$> entries).
Proof.
  intros Hwf Hnd. unfold parseQueriesFile.
  assert (∀ acc : list (Z * string),
    NoDup (acc.*1 ++ ((λ e : string * string, Py.int_go 0 e.1) <$> entries)) →
    foldM parseQueryLine acc
      ((λ e : string * string, e.1 +:+ " " +:+ e.2) <$> entries) =
    Ok (acc ++ ((λ e : string * string, (Py.int_go 0 e.1, Py.strip e.2))
                  <$> entries))) as Hgen.
  { clear Hnd. induction entries as [|[d t] entries IH]; intros acc Hnd.
    - cbn. by rewrite app_nil_r.
    - apply Forall_cons in Hwf as [[Hne Hd] Hwf].
      rewrite !fmap_cons in *. cbn [foldM fst snd] in *.
      rewrite parseQueryLine_wellformed by done. cbn [bind].
      rewrite od_set_fresh.
      + rewrite (IH Hwf) by (by rewrite fmap_app, <- app_assoc).
        by rewrite <- app_assoc.
      + apply NoDup_app in Hnd as (_ & Hdisj & _).
        intros Hk. apply (Hdisj _ Hk). by left. }
  by rewrite (Hgen []).
Qed.

Lemma query_file_parses_to_ids_and_stripped_texts_witness :
  parseQueriesFile
    ((λ e : string * string, e.1 +:+ " " +:+ e.2) <$>
       [("1", "cat AND dog"); ("07", " #2(cat, dog)  ")]) =
  Ok ((λ e : string * string, (Py.int_go 0 e.1, Py.strip e.2)) <$>
        [("1", "cat AND dog"); ("07", " #2(cat, dog)  ")]).
Proof.
  apply (query_file_parses_to_ids_and_stripped_texts
           [("1", "cat AND dog"); ("07", " #2(cat, dog)  ")]).
  - by_evaluation.
  - by_evaluation.
Defined.

(** X20: the parsed dictionary never holds an ID twice; a further line
    with an ID in digits sets the text of that ID and leaves the other
    entries as they are, and an ID that was present keeps its place. *)
Theorem query_file_later_line_replaces_text
    (lines : list string) (dict : list (Z * string)) (d text : string) :
  parseQueriesFile lines = Ok dict →
  d ≠ EmptyString → all_chars Py.is_digit d = true →
  NoDup dict.*1 ∧
  ∃ dict',
    parseQueriesFile (lines ++ [d +:+ " " +:+ text]) = Ok dict' ∧
    NoDup dict'.*1 ∧
    (∀ k v, (k, v) ∈ dict' ↔
       (k = Py.int_go 0 d ∧ v = Py.strip text) ∨
       (k ≠ Py.int_go 0 d ∧ (k, v) ∈ dict)) ∧
    (Py.int_go 0 d ∈ dict.*1 → dict'.*1 = dict.*1).
Proof.
  intros Hrun Hne Hd.
  assert (NoDup dict.*1) as Hnd.
  { eapply foldM_parse_NoDup; [exact Hrun|]. constructor. }
  split; [done|].
  exists (od_set (Py.int_go 0 d) (Py.strip text) dict).
  repeat split.
  - unfold parseQueriesFile in *. rewrite foldM_app, Hrun. cbn [bind foldM].
    by rewrite parseQueryLine_wellformed.
  - by apply od_set_NoDup.
  - by apply od_set_lookup.
  - by apply od_set_lookup.
  - apply od_set_keys_present.
Qed.

Lemma query_file_later_line_replaces_text_witness :
  NoDup [(1, "cat"); (2, "dog")].*1 ∧
  ∃ dict',
    parseQueriesFile (["1 cat"; "2 dog"] ++ ["1" +:+ " " +:+ "bird"])
      = Ok dict' ∧
    NoDup dict'.*1 ∧
    (∀ k v, (k, v) ∈ dict' ↔
       (k = Py.int_go 0 "1" ∧ v = Py.strip "bird") ∨
       (k ≠ Py.int_go 0 "1" ∧ (k, v) ∈ [(1, "cat"); (2, "dog")])) ∧
    (Py.int_go 0 "1" ∈ [(1, "cat"); (2, "dog")].*1 →
     dict'.*1 = [(1, "cat"); (2, "dog")].*1).
Proof.
  apply (query_file_later_line_replaces_text ["1 cat"; "2 dog"]
           [(1, "cat"); (2, "dog")] "1" "bird"); reflexivity || done.
Defined.

(** X21: the parse stops at the first bad line and returns nothing: a
    line without a blank, such as an empty line, raises [IndexError]
    whatever its ID is, and a line whose text before the first blank is
    not an integer literal raises [ValueError]. *)
Theorem query_file_bad_line_raises
    (before after : list string) (dict : list (Z * string)) :
  parseQueriesFile before = Ok dict →
  (∀ line, lacks " " line = true →
     parseQueriesFile (before ++ line :: after) = Raise IndexError) ∧
  (∀ idText text, lacks " " idText = true →
     int_literal (Py.strip idText) = Raise ValueError →
     parseQueriesFile (before ++ (idText +:+ " " +:+ text) :: after)
       = Raise ValueError).
Proof.
  intros Hrun. unfold parseQueriesFile in *. split.
  - intros line Hline. rewrite foldM_app, Hrun. cbn [bind foldM].
    unfold parseQueryLine, Py.split1.
    by rewrite (partition_lacks " " EmptyString line Hline).
  - intros idText text Hid Hint. rewrite foldM_app, Hrun. cbn [bind foldM].
    unfold parseQueryLine, Py.split1.
    rewrite (partition_app_lacks " " EmptyString idText text Hid).
    cbn [getitem lookup list_lookup bind]. by rewrite Hint.
Qed.

Lemma query_file_bad_line_raises_witness :
  parseQueriesFile (["1 cat"] ++ "2" :: ["3 dog"]) = Raise IndexError ∧
  parseQueriesFile (["1 cat"] ++ ("q2" +:+ " " +:+ "dog") :: ["3 cat"])
    = Raise ValueError.
Proof.
  split.
  - apply (proj1 (query_file_bad_line_raises ["1 cat"] ["3 dog"]
                    [(1, "cat")] eq_refl) "2").
    reflexivity.
  - apply (proj2 (query_file_bad_line_raises ["1 cat"] ["3 cat"]
                    [(1, "cat")] eq_refl) "q2" "dog"); reflexivity.
Defined.


(** ** Index files *)

Lemma digit_is_no_separator c :
  Py.is_digit c = true →
  negb (Ascii.eqb c ",") = true ∧ negb (Ascii.eqb c ":") = true.
Proof.
  destruct c as [[] [] [] [] [] [] [] []]; intros Hc; try done.
Qed.

Lemma digits_lack_separators (d : string) :
  all_chars Py.is_digit d = true → lacks "," d = true ∧ lacks ":" d = true.
Proof.
  intros Hd. split; (eapply all_chars_impl; [|exact Hd]);
    intros c Hc; by apply digit_is_no_separator.
Qed.

Lemma join_cons sep piece piece' rest :
  join sep (piece :: piece' :: rest) =
  piece +:+ sep +:+ join sep (piece' :: rest).
Proof. reflexivity. Qed.

(** Joining numerals with commas and splitting on commas is the identity. *)
Lemma split_join_numerals (ps : list string) :
  ps ≠ [] → Forall numeral ps → Py.split "," (join "," ps) = ps.
Proof.
  induction ps as [|d ps IH]; [done|]. intros _ Hps.
  apply Forall_cons in Hps as [[_ Hd] Hps].
  destruct (digits_lack_separators d Hd) as [Hcomma _].
  destruct ps as [|d' ps].
  - by apply (split_lacks "," EmptyString).
  - rewrite join_cons, (split_app "," EmptyString d _ Hcomma).
    by rewrite IH.
Qed.

Lemma join_numerals_plain (ps : list string) :
  ps ≠ [] → Forall numeral ps →
  join "," ps ≠ EmptyString ∧
  all_chars (λ c, negb (Py.is_space c)) (join "," ps) = true ∧
  lacks ":" (join "," ps) = true.
Proof.
  induction ps as [|d ps IH]; [done|]. intros _ Hps.
  apply Forall_cons in Hps as [[Hne Hd] Hps].
  destruct (digits_lack_separators d Hd) as [_ Hcolon].
  destruct (digits_lack_blank d Hd) as [_ Hspace].
  destruct ps as [|d' ps]; [done|].
  destruct IH as (_ & IHspace & IHcolon); [done..|].
  rewrite join_cons. repeat split.
  - by destruct d.
  - rewrite !all_chars_app, Hspace, IHspace. done.
  - rewrite !lacks_app, Hcolon, IHcolon. done.
Qed.

Lemma mapM_int_literal_numerals (ps : list string) :
  Forall numeral ps → mapM int_literal ps = Ok (Py.int_go 0 <$> ps).
Proof.
  induction 1 as [|d ps [Hne Hd] _ IH]; [done|].
  cbn [mapM]. by rewrite int_literal_digits, IH.
Qed.

Lemma rstrip_trailing_space (s : string) c :
  Py.is_space c = true →
  all_chars (λ c, negb (Py.is_space c)) s = true →
  Py.rstrip (s +:+ String c EmptyString) = s.
Proof.
  intros Hc. induction s as [|a s IH]; intros Hs.
  - rewrite append_empty_l. cbn. by rewrite Hc.
  - cbn [all_chars] in Hs. apply andb_true_iff in Hs as [Ha Hs].
    rewrite append_cons. cbn [Py.rstrip]. rewrite (IH Hs).
    apply negb_true_iff in Ha as ->. by destruct s.
Qed.

(** X22: a document line of the index file never hands an empty position
    list to the index: the positions field parses to one position at
    least or raises; and a line made of a tab, the document ID in digits,
    a colon, positions in digits separated by commas and a newline parses
    to that ID and those positions. *)
Theorem index_document_line_has_positions :
  (∀ line docID positions,
     parseDocumentLine line = Ok (docID, positions) → positions ≠ []) ∧
  (∀ d ps, numeral d → ps ≠ [] → Forall numeral ps →
     parseDocumentLine
       (String tab d +:+ ":" +:+ join "," ps +:+ String newline EmptyString) =
     Ok (Py.int_go 0 d, Py.int_go 0 <$> ps)).
Proof.
  split.
  - intros line docID positions. unfold parseDocumentLine.
    destruct (getitem _ 0); [|done..]. cbn [bind].
    destruct (int_literal _); [|done..]. cbn [bind].
    destruct (getitem _ 1) as [positionsText| |]; [|done..]. cbn [bind].
    destruct (mapM _ _) as [l| |] eqn:Hl; [|done..]. cbn [bind].
    intros [= <- <-]. apply mapM_length in Hl.
    pose proof (split_go_nonempty "," 0 (Py.strip positionsText)) as Hne.
    unfold Py.split in Hl. destruct l; [|done].
    destruct (Py.split_go "," 0 (Py.strip positionsText)); done.
  - intros d ps [Hne Hd] Hps Hall.
    destruct (digits_lack_separators d Hd) as [_ Hcolon].
    destruct (digits_lack_blank d Hd) as [_ Hspace].
    destruct (join_numerals_plain ps Hps Hall) as (Hjne & Hjspace & Hjcolon).
    unfold parseDocumentLine.
    rewrite (split_app ":" EmptyString (String tab d) _)
      by (by change (lacks ":" (String tab d)) with (lacks ":" d)).
    rewrite (split_lacks ":" EmptyString)
      by (by rewrite lacks_app, Hjcolon).
    cbn [getitem lookup list_lookup bind].
    assert (Py.strip (String tab d) = d) as ->.
    { change (Py.strip (String tab d)) with (Py.strip d). by apply strip_id. }
    rewrite int_literal_digits by done. cbn [bind].
    assert (Py.strip (join "," ps +:+ String newline EmptyString)
            = join "," ps) as ->.
    { unfold Py.strip. destruct (join "," ps) as [|c j] eqn:Hj; [done|].
      assert (Py.lstrip (String c j +:+ String newline EmptyString)
              = String c j +:+ String newline EmptyString) as ->.
      { rewrite append_cons. cbn [Py.lstrip].
        cbn [all_chars] in Hjspace.
        apply andb_true_iff in Hjspace as [Hc _].
        by apply negb_true_iff in Hc as ->. }
      by apply rstrip_trailing_space. }
    rewrite split_join_numerals, mapM_int_literal_numerals by done.
    reflexivity.
Qed.

Lemma index_document_line_has_positions_witness :
  parseDocumentLine
    (String tab "12" +:+ ":" +:+ join "," ["3"; "10"; "27"]
       +:+ String newline EmptyString) =
  Ok (Py.int_go 0 "12", Py.int_go 0 <$> ["3"; "10"; "27"]).
Proof.
  apply (proj2 index_document_line_has_positions "12" ["3"; "10"; "27"]).
  - split; [discriminate|reflexivity].
  - discriminate.
  - repeat constructor; discriminate.
Defined.
